(** * The parser-synthesis agent ([agent.py]): model and properties

    A shallow embedding of [agent.py]: the document prober
    ([peek_pdf_structure]), the prompt composer ([build_prompt]), the
    service client ([call_llm]), the fence-stripping step of [agent_loop],
    the artifact store ([save_parser]), the validation harness
    ([test_parser]), the retry loop ([agent_loop]) and the command line
    entry point ([main]) with the way the process ends.

    Conventions.
    - A Python [str] is the list of its code points.
    - The file system is a finite map from the paths the program uses to
      file contents, on a POSIX system; directories are not represented.
      Creating the parser directory and opening the parser file can fail,
      and so can encoding the text written to it, which leaves the file
      empty.
    - argparse, pandas, pdfplumber, the generative-model client and the
      Python interpreter that loads and runs a generated parser are
      external: they are the fields of a record [World].  The libraries
      fail with ordinary exceptions (instances of [Exception]) that can be
      printed, and every call into them comes to an end.
    - A generated parser is arbitrary code.  Loading it and calling its
      [parse] can return, raise an [Exception], raise an exception that
      [except Exception] does not catch ([SystemExit],
      [KeyboardInterrupt], any other [BaseException]), raise an
      [Exception] whose [__str__] raises in turn or never returns, or
      never come to an end; and both can change the files: the import
      itself writes the compiled module next to the source.  What they do
      may depend on more than the files (time stamps, a compiled module
      left by an earlier import): the interpreter is given the number of
      requests made so far as well.  A parser does not alter the program
      or the libraries it runs in.
    - The modules the program imports are installed.  Console output
      ([print]) is not modelled. *)

From Stdlib Require Import ZArith String Ascii List Bool Lia.
From Stdlib Require Import DecimalString.
From stdpp Require Import base tactics option list numbers countable gmap.

Local Open Scope Z_scope.
Local Open Scope list_scope.

(** ** Python strings *)

Module PyStr.

(** A [str] value: code points, in order. *)
Abbreviation pystr := (list N).

(** A string literal of the source whose characters are all ASCII. *)
Definition lit (s : string) : pystr :=
  map N_of_ascii (list_ascii_of_string s).

(** The double quote, which the literals below cannot contain. *)
Definition dquote : pystr := [34%N].

(** U+274C, the cross mark of the feedback heading. *)
Definition cross_mark : pystr := [10060%N].

Definition backtick : N := 96%N.

(** [str(n)] for an [int]. *)
Definition str_int (z : Z) : pystr :=
  lit (NilZero.string_of_int (Z.to_int z)).

(** [Py_UNICODE_ISSPACE]: the characters [str.strip()] removes. *)
Definition isspace (c : N) : bool :=
  ((9 <=? c) && (c <=? 13) || (28 <=? c) && (c <=? 32)
   || (c =? 133) || (c =? 160) || (c =? 5760)
   || (8192 <=? c) && (c <=? 8202)
   || (c =? 8232) || (c =? 8233) || (c =? 8239) || (c =? 8287)
   || (c =? 12288))%N.

Fixpoint lstrip (s : pystr) : pystr :=
  match s with
  | c :: s' => if isspace c then lstrip s' else s
  | [] => []
  end.

(** [s.strip()] *)
Definition strip (s : pystr) : pystr := rev (lstrip (rev (lstrip s))).

(** [s.startswith(p)] *)
Fixpoint startswith (p s : pystr) : bool :=
  match p, s with
  | [], _ => true
  | _ :: _, [] => false
  | a :: p', b :: s' => (a =? b)%N && startswith p' s'
  end.

(** [sub in s] *)
Fixpoint contains (sub s : pystr) : bool :=
  startswith sub s ||
  match s with
  | [] => false
  | _ :: s' => contains sub s'
  end.

(** [s.split(sep)] for a non-empty [sep]: the separator is searched from
    the left and occurrences do not overlap.  [cur] is the piece being
    read, reversed; [skip] counts the characters of a separator that was
    just matched and are still to be passed over. *)
Fixpoint split_from (sep s cur : pystr) (skip : nat) : list pystr :=
  match s with
  | [] => [rev cur]
  | c :: s' =>
      match skip with
      | S k => split_from sep s' cur k
      | O =>
          if startswith sep s
          then rev cur :: split_from sep s' [] (Nat.pred (length sep))
          else split_from sep s' (c :: cur) 0
      end
  end.

Definition split (sep s : pystr) : list pystr := split_from sep s [] 0.

(** [sep.join(pieces)] *)
Fixpoint str_join (sep : pystr) (pieces : list pystr) : pystr :=
  match pieces with
  | [] => []
  | [x] => x
  | x :: rest => x ++ sep ++ str_join sep rest
  end.

(** Truth value of an [Optional[str]]: [None] and [""] are false. *)
Definition truthy (o : option pystr) : bool :=
  match o with
  | Some (_ :: _) => true
  | _ => false
  end.

(** [x] occurs in [s] as a contiguous run. *)
Definition occurs_in (x s : pystr) : Prop :=
  exists pre post, s = pre ++ x ++ post.

End PyStr.
Export PyStr.

(** ** Exceptions and results *)

(** An instance of [Exception] that can be printed: [type(e).__name__],
    [str(e)] and the text [traceback.format_exc()] gives while it is
    being handled. *)
Record exc := MkExc {
  exc_name : pystr;
  exc_str : pystr;
  exc_traceback : pystr
}.

(** What a statement can raise.
    - [Exception e]: an instance of [Exception] whose [str(e)] returns.
    - [Unprintable name r]: an instance of [Exception], of the class
      [name], whose [str(e)] raises [r].
    - [Speechless name]: an instance of [Exception] whose [str(e)] never
      returns.
    - [SystemExit status], [KeyboardInterrupt] and [BaseException name]
      derive from [BaseException] only, so that [except Exception] does not
      catch them; [status] is the exit status the interpreter ends with
      when the [SystemExit] is not caught, and [BaseException name] stands
      for [GeneratorExit] and for every class a program derives from
      [BaseException] itself. *)
Inductive raised :=
| Exception (e : exc)
| Unprintable (name : pystr) (r : raised)
| Speechless (name : pystr)
| SystemExit (status : Z)
| KeyboardInterrupt
| BaseException (name : pystr).

(** How a computation ends: it returns, it raises, or it never ends. *)
Inductive result (A : Type) :=
| Ok (a : A)
| Raise (r : raised)
| Hang.
Arguments Ok {A} a.
Arguments Raise {A} r.
Arguments Hang {A}.

(** A call into a library: it returns or raises an [Exception]. *)
Definition lift {A} (x : exc + A) : result A :=
  match x with
  | inr a => Ok a
  | inl e => Raise (Exception e)
  end.

(** ** Tables *)

(** A cell or a label: a missing value ([nan] or [None], and [NaT] in
    a column of dates), an [int], a [float] that is not [nan], given by
    its binary64 bit pattern, a [str] or a [bool].  The cells of a column
    of dates are the [int]s of their nanoseconds. *)
Inductive scalar :=
| NaN
| Int (z : Z)
| Float (bits : Z)
| Str (s : pystr)
| Bool (b : bool).

Inductive dtype := int64 | float64 | bool_ | object_ | datetime64.

Record Series := MkSeries {
  s_dtype : dtype;
  s_values : list scalar
}.

(** A [DataFrame]: row labels, column labels, and one [Series] per column. *)
Record DataFrame := MkDataFrame {
  index : list scalar;
  columns : list scalar;
  data : list Series
}.

#[global] Instance scalar_eq_dec : EqDecision scalar.
Proof. solve_decision. Defined.
#[global] Instance dtype_eq_dec : EqDecision dtype.
Proof. solve_decision. Defined.
#[global] Instance Series_eq_dec : EqDecision Series.
Proof. solve_decision. Defined.
#[global] Instance DataFrame_eq_dec : EqDecision DataFrame.
Proof. solve_decision. Defined.

(** Every column has one value per row. *)
Definition well_formed (df : DataFrame) : Prop :=
  length (data df) = length (columns df) /\
  Forall (fun c => length (s_values c) = length (index df)) (data df).

(** [df.shape] *)
Definition shape (df : DataFrame) : nat * nat :=
  (length (index df), length (columns df)).

(** [df.dtypes.to_dict()], as the list of its items. *)
Definition dtypes (df : DataFrame) : list (scalar * dtype) :=
  zip (columns df) (map s_dtype (data df)).

(** The cell of column [i] in row [j]. *)
Definition cell (df : DataFrame) (i j : nat) : option scalar :=
  data df !! i ≫= fun c => s_values c !! j.

(** [df.head(n)] *)
Definition head (n : nat) (df : DataFrame) : DataFrame :=
  {| index := take n (index df);
     columns := columns df;
     data := map (fun c => MkSeries (s_dtype c) (take n (s_values c))) (data df) |}.

(** The integer a binary64 bit pattern stands for, when it stands for
    one: [int_of_float 0x3FF0000000000000 = Some 1]. *)
Definition int_of_float (bits : Z) : option Z :=
  let negative := Z.testbit bits 63 in
  let e := Z.land (Z.shiftr bits 52) 2047 in
  let f := Z.land bits (2 ^ 52 - 1) in
  let signed (z : Z) := if negative then - z else z in
  if e =? 2047 then None
  else if e =? 0 then (if f =? 0 then Some 0 else None)
  else
    let m := 2 ^ 52 + f in
    if 1075 <=? e then Some (signed (Z.shiftl m (e - 1075)))
    else if Z.land m (2 ^ (1075 - e) - 1) =? 0
         then Some (signed (Z.shiftr m (1075 - e)))
         else None.

(** A label or cell up to [==]: [1 == 1.0 == True], [0.0 == -0.0], and
    the comparisons of pandas take a missing value to match a missing
    value in the same place.  An [int] and a [float] are compared
    exactly, as Python compares them. *)
Definition value (x : scalar) : scalar :=
  match x with
  | Bool true => Int 1
  | Bool false => Int 0
  | Float bits =>
      match int_of_float bits with
      | Some z => Int z
      | None => Float bits
      end
  | _ => x
  end.

Definition same_value (x y : scalar) : bool := bool_decide (value x = value y).

(** [list(a) == list(b)] on labels; no label is missing in the lists
    the program compares, the column labels of a table read from a CSV
    file being strings. *)
Definition same_labels (a b : list scalar) : bool :=
  bool_decide (map value a = map value b).

(** A table up to [==] on its labels and cells. *)
Definition values_of (df : DataFrame) : DataFrame :=
  {| index := map value (index df);
     columns := map value (columns df);
     data := map (fun c => MkSeries (s_dtype c) (map value (s_values c))) (data df) |}.

(** Equality of two tables by value, which is what [a.equals(b)] comes
    to on ordinary tables: row labels and column labels of the same
    values, and column by column the same dtype and cells of the same
    values, missing values in the same place counting as equal.  The kind
    of a label does not count: the row labels [0.0, 1.0] equal the row
    labels [0, 1]. *)
Definition equal_by_value (a b : DataFrame) : bool :=
  bool_decide (values_of a = values_of b).

(** What [parse] may return: a [DataFrame], or some other object, of
    which the harness only prints [type(...)]. *)
Inductive pyobj :=
| DF (df : DataFrame)
| Other (type_repr : pystr).

(** ** The outside world *)

(** One page of an opened PDF: what [extract_text()] and
    [extract_tables()] give on it.  A text that cannot be sliced counts as
    a failure of [extract_text]. *)
Record page := MkPage {
  extract_text : exc + pystr;
  extract_tables : exc + list (list (list (option pystr)))
}.

(** The files, by path. *)
Abbreviation filesystem := (gmap pystr pystr).

(** A loaded module: its attribute [parse], if it has one, applied to one
    positional argument with the files as they are; it ends as a [result]
    tells and leaves the files changed or not.  A [parse] that is not
    callable that way raises [TypeError] when called. *)
Record module := MkModule {
  parse : option (pystr -> filesystem -> result pyobj * filesystem)
}.

Record World := MkWorld {
  (** [parser.parse_args()] for the two options of [main] on the
      arguments of the command line: the status argparse exits with (0
      after printing the help, 2 after an error), or the values of
      [--target] and [--max-attempts] *)
  parse_args : list pystr -> Z + pystr * Z;
  (** [pd.read_csv(path)] *)
  read_csv : filesystem -> pystr -> exc + DataFrame;
  (** [str(labels)] of a list of column labels *)
  repr_labels : list scalar -> pystr;
  (** [str(d)] of the dict of a row, label to value *)
  repr_row : list (scalar * scalar) -> pystr;
  (** [str(d)] of the dict of dtypes *)
  repr_dtypes : list (scalar * dtype) -> pystr;
  (** [df.to_string()] *)
  to_string : DataFrame -> pystr;
  (** [a.equals(b)], the comparison of pandas *)
  equals : DataFrame -> DataFrame -> bool;
  (** [pdfplumber.open(path).pages] *)
  pdfplumber_open : filesystem -> pystr -> exc + list page;
  (** [model.generate_content(prompt).text]; the first argument is the
      number of requests made before this one *)
  generate_content : nat -> pystr -> exc + pystr;
  (** what [parser_dir.mkdir(exist_ok=True)] or [open(path, 'w')]
      raises, if one of them does *)
  open_error : filesystem -> pystr -> option exc;
  (** the [UnicodeEncodeError] of [f.write(text)], if the encoding of the
      file cannot encode the text *)
  encode_error : pystr -> option exc;
  (** [spec_from_file_location], [module_from_spec] and [exec_module]
      on the file at the path, after so many requests to the model: how
      the import ends and the files it leaves *)
  exec_module : nat -> filesystem -> pystr -> result module * filesystem;
  (** [traceback.format_exc()] for an exception of the given type name
      and message raised by a statement of [agent.py] itself *)
  traceback : pystr -> pystr -> pystr
}.

(** An exception raised by a statement of [agent.py]. *)
Definition raise_here (W : World) (name msg : string) : exc :=
  MkExc (lit name) (lit msg) (traceback W (lit name) (lit msg)).

(** ** State *)

(** External interactions, in the order they happen. *)
Inductive event :=
| Generated (prompt : pystr) (answer : exc + pystr)
| Persisted (path code : pystr)
| Validated (path : pystr) (verdict : result (bool * option pystr)).

Record state := MkState {
  fs : filesystem;             (* the files *)
  requests : nat;              (* requests made to the model so far *)
  trace : list event           (* ghost: the interactions so far *)
}.

Module Monad.

Definition M (A : Type) : Type := state -> result A * state.

Definition ret {A} (a : A) : M A := fun s => (Ok a, s).

Definition raise {A} (r : raised) : M A := fun s => (Raise r, s).

Definition bind {A B} (m : M A) (k : A -> M B) : M B :=
  fun s =>
    match m s with
    | (Ok a, s') => k a s'
    | (Raise r, s') => (Raise r, s')
    | (Hang, s') => (Hang, s')
    end.

(** A value computed without effect, or the exception it raises. *)
Definition of_result {A} (r : result A) : M A := fun s => (r, s).

Definition gets {A} (f : state -> A) : M A := fun s => (Ok (f s), s).

(** Record an interaction. *)
Definition log (e : event) : M unit :=
  fun s => (Ok tt, MkState (fs s) (requests s) (trace s ++ [e])).

(** [try: body  except Exception as e: handler(e)], for a handler that
    begins by formatting [e], as the three handlers of [agent.py] do: an
    exception that cannot be printed makes the handler raise, or keeps
    it from returning. *)
Definition try_except {A} (body : M A) (handler : exc -> M A) : M A :=
  fun s =>
    match body s with
    | (Raise (Exception e), s') => handler e s'
    | (Raise (Unprintable _ r), s') => (Raise r, s')
    | (Raise (Speechless _), s') => (Hang, s')
    | other => other
    end.

End Monad.
Export Monad.

Notation "x <- m ;; k" := (bind m (fun x => k))
  (at level 100, m at next level, right associativity).
Notation "m ;;; k" := (bind m (fun _ => k))
  (at level 100, right associativity).

(** ** The program *)

Section Agent.

Variable W : World.

(** [l[i]] on a list *)
Definition item {A} (l : list A) (i : nat) : result A :=
  match l !! i with
  | Some x => Ok x
  | None => Raise (Exception (raise_here W "IndexError" "list index out of range"))
  end.

(** [str(t)] of a pair of [int]s *)
Definition repr_shape (t : nat * nat) : pystr :=
  lit "(" ++ str_int (Z.of_nat (fst t)) ++ lit ", " ++ str_int (Z.of_nat (snd t)) ++ lit ")".

(** [df.iloc[0].to_dict()], as the list of its items *)
Definition iloc0 (df : DataFrame) : result (list (scalar * scalar)) :=
  match index df with
  | [] => Raise (Exception (raise_here W "IndexError" "single positional indexer is out-of-bounds"))
  | _ :: _ => Ok (zip (columns df) (map (fun c => default NaN (s_values c !! 0%nat)) (data df)))
  end.

(** *** [peek_pdf_structure] *)

Definition structure_text (pages : list page) (text_sample : pystr)
    (tables : list (list (list (option pystr)))) : pystr :=
  lit "
PDF has "
  ++ str_int (Z.of_nat (length pages))
  ++ lit " page(s)
First page text sample:
"
  ++ text_sample
  ++ lit "

Number of tables detected: "
  ++ str_int (Z.of_nat (length tables))
  ++ lit "
".

Definition first_table_text (first_table : list (list (option pystr))) : pystr :=
  lit "First table has "
  ++ str_int (Z.of_nat (length first_table))
  ++ lit " rows".

Definition could_not_analyze (e : exc) : pystr :=
  lit "Could not analyze PDF: "
  ++ exc_str e.

Definition peek_pdf_structure (pdf_path : pystr) : M pystr :=
  try_except
    (pages <- (fun s => (lift (pdfplumber_open W (fs s) pdf_path), s)) ;;
     page <- of_result (item pages 0) ;;
     text <- of_result (lift (extract_text page)) ;;
     let text_sample := take 500 text in
     tables <- of_result (lift (extract_tables page)) ;;
     let structure := structure_text pages text_sample tables in
     match tables with
     | first_table :: _ => ret (structure ++ first_table_text first_table)
     | [] => ret structure
     end)
    (fun e => ret (could_not_analyze e)).

(** *** [build_prompt] *)

Definition task_text (pdf_structure : pystr) (expected_df : DataFrame) : pystr :=
  lit "You are a Python coding expert. Write a complete Python parser function.

TASK: Create a function `parse(pdf_path)` that extracts bank statement data from PDF.

PDF STRUCTURE:
"
  ++ pdf_structure
  ++ lit "

IMPORTANT: This PDF has MULTIPLE PAGES with DUPLICATE HEADERS on each page. 
You MUST skip the header row on each page individually to avoid duplicate headers in your final data.

REQUIRED OUTPUT SCHEMA:
Columns: "
  ++ repr_labels W (columns expected_df)
  ++ lit "
Data types: "
  ++ repr_dtypes W (dtypes expected_df)
  ++ lit "
Expected rows: "
  ++ str_int (Z.of_nat (length (index expected_df)))
  ++ lit " (EXACTLY this many rows, no more, no less)

SAMPLE EXPECTED OUTPUT (first 3 rows):
"
  ++ to_string W (head 3 expected_df)
  ++ lit "

REQUIREMENTS:
1. Function signature: def parse(pdf_path: str) -> pd.DataFrame
2. Use pdfplumber library to extract tables
3. Return pandas DataFrame matching the schema EXACTLY
4. Column names must match exactly: "
  ++ repr_labels W (columns expected_df)
  ++ lit "
5. Handle data type conversions (dates, numbers)
6. Clean the data (remove nulls, strip whitespace)
7. Include proper imports at the top
8. CRITICAL: Process each page separately and skip headers on each page to avoid duplicates

RECOMMENDED APPROACH:
```python
for page in pdf.pages:
    table = page.extract_table()
    if table:
        for row in table[1:]:  # Skip header on each page
            all_data.append(row)
```

CODE TEMPLATE:
```python
import pandas as pd
import pdfplumber
from typing import Any

def parse(pdf_path: str) -> pd.DataFrame:
    '''Parse bank statement PDF and return DataFrame'''
    # Your code here
    pass
```
".

Definition feedback_text (attempt : Z) (error_msg previous_code : pystr) : pystr :=
  lit "

"
  ++ cross_mark
  ++ lit " PREVIOUS ATTEMPT "
  ++ str_int (attempt - 1)
  ++ lit " FAILED WITH ERROR:
"
  ++ error_msg
  ++ lit "

PREVIOUS CODE THAT FAILED:
```python
"
  ++ previous_code
  ++ lit "
```

INSTRUCTIONS FOR FIX:
- Analyze the error above carefully
- If you get "
  ++ dquote
  ++ lit "Shape mismatch"
  ++ dquote
  ++ lit " with more rows than expected, you're likely including duplicate headers from multiple PDF pages
- Process each page individually: for page in pdf.pages: ... for row in table[1:]: ...
- If you get "
  ++ dquote
  ++ lit "DataFrames not exactly equal"
  ++ dquote
  ++ lit " check for NaN vs 0.0 issues - use float('nan') for empty values, not 0.0
- Make sure column names match EXACTLY
- Ensure data types are correct
- The PDF has multiple pages with headers on each page - skip them all
- Test your logic mentally before responding

NOW WRITE THE CORRECTED CODE:
".

Definition closing_text : pystr :=
  lit "

CRITICAL: Return ONLY the Python code, nothing else. No explanations, no markdown.
Start directly with 'import' statements.
".

Definition build_prompt (pdf_path csv_path : pystr)
    (previous_code error_msg : option pystr) (attempt : Z) : M pystr :=
  expected_df <- (fun s => (lift (read_csv W (fs s) csv_path), s)) ;;
  pdf_structure <- peek_pdf_structure pdf_path ;;
  let prompt := task_text pdf_structure expected_df in
  let prompt :=
    if truthy previous_code && truthy error_msg
    then prompt ++ feedback_text attempt (default [] error_msg) (default [] previous_code)
    else prompt in
  ret (prompt ++ closing_text).

(** *** [call_llm] *)

Definition call_llm (prompt : pystr) : M pystr :=
  try_except
    (fun s =>
       let answer := generate_content W (requests s) prompt in
       (lift answer,
        MkState (fs s) (S (requests s)) (trace s ++ [Generated prompt answer])))
    (fun e => raise (SystemExit 1)).

(** *** [save_parser] *)

Definition slash : N := 47%N.

(** The root of a POSIX path: two leading slashes are kept, one or
    three and more are one. *)
Definition posix_root (p : pystr) : pystr :=
  match p with
  | a :: b :: c :: _ =>
      if (a =? slash)%N && (b =? slash)%N && negb (c =? slash)%N then [slash; slash]
      else if (a =? slash)%N then [slash] else []
  | [a; b] =>
      if (a =? slash)%N && (b =? slash)%N then [slash; slash]
      else if (a =? slash)%N then [slash] else []
  | [a] => if (a =? slash)%N then [slash] else []
  | [] => []
  end.

(** The components of a POSIX path as pathlib keeps them: neither the
    empty ones nor the dots. *)
Definition posix_parts (p : pystr) : list pystr :=
  filter (fun c : pystr => c <> [] /\ c <> lit ".") (split [slash] p).

(** [str(Path("custom_parser") / f"{bank}_parser.py")]: a name that
    begins with a slash replaces the directory, and the path is written
    without empty components and dots. *)
Definition parser_file (bank : pystr) : pystr :=
  let name := bank ++ lit "_parser.py" in
  match posix_root name with
  | [] => str_join [slash] (lit "custom_parser" :: posix_parts name)
  | root => root ++ str_join [slash] (posix_parts name)
  end.

(** Lines 168 to 174: the directory is made, the file is opened, which
    empties it, and the code is written, all of it or nothing. *)
Definition write_parser (path content : pystr) : M unit :=
  fun s =>
    match open_error W (fs s) path with
    | Some e => (Raise (Exception e), s)
    | None =>
        match encode_error W content with
        | Some e =>
            (Raise (Exception e), MkState (<[path := []]> (fs s)) (requests s) (trace s))
        | None =>
            (Ok tt, MkState (<[path := content]> (fs s)) (requests s) (trace s))
        end
    end.

Definition save_parser (code bank : pystr) : M pystr :=
  let parser_path := parser_file bank in
  write_parser parser_path code ;;;
  log (Persisted parser_path code) ;;;
  ret parser_path.

(** *** [test_parser] *)

(** The [return] statement a call of [test_parser] leaves by: lines 196,
    200, 208, 217, 235 and 246 of [agent.py]. *)
Inductive branch :=
| NotDataFrame
| ColumnMismatch
| ShapeMismatch
| PerfectMatch
| NotEqual
| ExecutionError.

Definition not_dataframe_text (type_repr : pystr) : pystr :=
  lit "parse() returned "
  ++ type_repr
  ++ lit ", expected DataFrame".

Definition column_mismatch_text (expected_df actual_df : DataFrame) : pystr :=
  lit "
Column mismatch!
Expected: "
  ++ repr_labels W (columns expected_df)
  ++ lit "
Got: "
  ++ repr_labels W (columns actual_df)
  ++ lit "
".

Definition shape_mismatch_text (expected_df actual_df : DataFrame) : pystr :=
  lit "
Shape mismatch!
Expected: "
  ++ repr_shape (shape expected_df)
  ++ lit " (rows, cols)
Got: "
  ++ repr_shape (shape actual_df)
  ++ lit "
".

Definition not_equal_text (expected_df actual_df : DataFrame)
    (expected_row actual_row : list (scalar * scalar)) : pystr :=
  lit "
DataFrames not exactly equal. Differences found:

Expected first row:
"
  ++ repr_row W expected_row
  ++ lit "

Actual first row:
"
  ++ repr_row W actual_row
  ++ lit "

Expected dtypes:
"
  ++ repr_dtypes W (dtypes expected_df)
  ++ lit "

Actual dtypes:
"
  ++ repr_dtypes W (dtypes actual_df)
  ++ lit "
".

Definition execution_error_text (e : exc) : pystr :=
  lit "
Code execution error: "
  ++ exc_name e
  ++ lit "
"
  ++ exc_str e
  ++ lit "

Traceback:
"
  ++ exc_traceback e
  ++ lit "
".

(** Lines 186 to 188: the import. *)
Definition load (parser_path : pystr) : M module :=
  fun s =>
    (fst (exec_module W (requests s) (fs s) parser_path),
     MkState (snd (exec_module W (requests s) (fs s) parser_path)) (requests s) (trace s)).

(** [f(arg)] for a function of a loaded module. *)
Definition call (f : pystr -> filesystem -> result pyobj * filesystem) (arg : pystr) : M pyobj :=
  fun s => (fst (f arg (fs s)), MkState (snd (f arg (fs s))) (requests s) (trace s)).

(** Lines 186 to 192: load the module and call its [parse]. *)
Definition run_parse (parser_path pdf_path : pystr) : M pyobj :=
  parser_module <- load parser_path ;;
  match parse parser_module with
  | None =>
      raise (Exception (raise_here W "AttributeError"
                          "module 'custom_parser' has no attribute 'parse'"))
  | Some f => call f pdf_path
  end.

(** Lines 195 to 235: the staged comparison. *)
Definition compare (expected_df : DataFrame) (actual : pyobj)
    : M (branch * (bool * option pystr)) :=
  match actual with
  | Other type_repr =>
      ret (NotDataFrame, (false, Some (not_dataframe_text type_repr)))
  | DF actual_df =>
      if negb (same_labels (columns actual_df) (columns expected_df))
      then ret (ColumnMismatch, (false, Some (column_mismatch_text expected_df actual_df)))
      else if negb (bool_decide (shape actual_df = shape expected_df))
      then ret (ShapeMismatch, (false, Some (shape_mismatch_text expected_df actual_df)))
      else if equals W expected_df actual_df
      then ret (PerfectMatch, (true, None))
      else
        expected_row <- of_result (iloc0 expected_df) ;;
        actual_row <- of_result (iloc0 actual_df) ;;
        ret (NotEqual, (false, Some (not_equal_text expected_df actual_df
                                       expected_row actual_row)))
  end.

Definition test_parser_at (parser_path pdf_path : pystr) (expected_df : DataFrame)
    : M (branch * (bool * option pystr)) :=
  try_except
    (actual <- run_parse parser_path pdf_path ;;
     compare expected_df actual)
    (fun e => ret (ExecutionError, (false, Some (execution_error_text e)))).

Definition test_parser (parser_path pdf_path : pystr) (expected_df : DataFrame)
    : M (bool * option pystr) :=
  fun s =>
    let (r, s') := test_parser_at parser_path pdf_path expected_df s in
    let verdict :=
      match r with Ok v => Ok (snd v) | Raise x => Raise x | Hang => Hang end in
    (verdict, MkState (fs s') (requests s') (trace s' ++ [Validated parser_path verdict])).

(** *** [agent_loop] *)

Definition fence : pystr := lit "```".
Definition python_fence : pystr := lit "```python".

(** Lines 296 to 300: remove the markdown around the code. *)
Definition clean_up (generated_code : pystr) : result pystr :=
  if contains python_fence generated_code then
    match item (split python_fence generated_code) 1 with
    | Ok after =>
        match item (split fence after) 0 with
        | Ok inner => Ok (strip inner)
        | other => other
        end
    | other => other
    end
  else if contains fence generated_code then
    match item (split fence generated_code) 1 with
    | Ok after =>
        match item (split fence after) 0 with
        | Ok inner => Ok (strip inner)
        | other => other
        end
    | other => other
    end
  else Ok (strip generated_code).

(** One pass of the [for] loop, lines 283 to 309; it yields the code it
    tried and the verdict on it. *)
Definition one_attempt (bank pdf_path csv_path : pystr) (expected_df : DataFrame)
    (previous_code error_msg : option pystr) (attempt : Z)
    : M (pystr * (bool * option pystr)) :=
  prompt <- build_prompt pdf_path csv_path previous_code error_msg attempt ;;
  generated_code <- call_llm prompt ;;
  generated_code <- of_result (clean_up generated_code) ;;
  parser_path <- save_parser generated_code bank ;;
  verdict <- test_parser parser_path pdf_path expected_df ;;
  ret (generated_code, verdict).

(** The [for] loop with [n] passes left. *)
Fixpoint attempts (n : nat) (bank pdf_path csv_path : pystr) (expected_df : DataFrame)
    (previous_code error_msg : option pystr) (attempt : Z) : M bool :=
  match n with
  | O => ret false
  | S n' =>
      r <- one_attempt bank pdf_path csv_path expected_df previous_code error_msg attempt ;;
      let '(generated_code, (success, error_msg)) := r in
      if success then ret true
      else attempts n' bank pdf_path csv_path expected_df
                    (Some generated_code) error_msg (attempt + 1)
  end.

Definition pdf_file (bank : pystr) : pystr :=
  lit "data/" ++ bank ++ lit "/" ++ bank ++ lit "_sample.pdf".
Definition csv_file (bank : pystr) : pystr :=
  lit "data/" ++ bank ++ lit "/" ++ bank ++ lit "_sample.csv".

(** [Path(p).exists()] *)
Definition exists_ (p : pystr) : M bool :=
  gets (fun s => bool_decide (is_Some (fs s !! p))).

Definition agent_loop (bank : pystr) (max_attempts : Z) : M bool :=
  let pdf_path := pdf_file bank in
  let csv_path := csv_file bank in
  pdf_there <- exists_ pdf_path ;;
  if negb pdf_there then ret false else
  csv_there <- exists_ csv_path ;;
  if negb csv_there then ret false else
  expected_df <- (fun s => (lift (read_csv W (fs s) csv_path), s)) ;;
  attempts (Z.to_nat max_attempts) bank pdf_path csv_path expected_df None None 1.

(** *** [main] *)

(** The end of the process: an exit status, the end by [SIGINT], or no
    end at all. *)
Inductive ending :=
| Exit (status : Z)
| Interrupted
| Unending.

(** How the process ends when [r] reaches the top uncaught: with the
    status of a [SystemExit], by the signal the interpreter sends itself
    for a [KeyboardInterrupt], and with status 1 after printing any other
    exception. *)
Definition uncaught (r : raised) : ending :=
  match r with
  | SystemExit status => Exit status
  | KeyboardInterrupt => Interrupted
  | _ => Exit 1
  end.

(** The process started with the arguments [argv] of the command line:
    argparse exits on [--help] and on arguments it does not accept; then
    [sys.exit(0 if success else 1)], unless something raised on the way
    is not caught or the loop never ends. *)
Definition main (argv : list pystr) (s : state) : ending * state :=
  match parse_args W argv with
  | inl status => (Exit status, s)
  | inr (target, max_attempts) =>
      match agent_loop target max_attempts s with
      | (Ok true, s') => (Exit 0, s')
      | (Ok false, s') => (Exit 1, s')
      | (Raise r, s') => (uncaught r, s')
      | (Hang, s') => (Unending, s')
      end
  end.

End Agent.

(** ** A small world to run the model in *)

Module Demo.

Definition show (x : scalar) : pystr :=
  match x with
  | NaN => lit "nan"
  | Int z => str_int z
  | Float bits => lit "float.fromhex(" ++ str_int bits ++ lit ")"
  | Str s => lit "'" ++ s ++ lit "'"
  | Bool true => lit "True"
  | Bool false => lit "False"
  end.

Definition show_dtype (d : dtype) : pystr :=
  match d with
  | int64 => lit "dtype('int64')"
  | float64 => lit "dtype('float64')"
  | bool_ => lit "dtype('bool')"
  | object_ => lit "dtype('O')"
  | datetime64 => lit "dtype('<M8[ns]')"
  end.

Definition show_dict {A} (f : A -> pystr) (d : list (scalar * A)) : pystr :=
  lit "{" ++ str_join (lit ", ") (map (fun kv => show (fst kv) ++ lit ": " ++ f (snd kv)) d)
  ++ lit "}".

(** The reference table of the examples: one column [n] holding 1 and 2. *)
Definition reference : DataFrame :=
  MkDataFrame [Int 0; Int 1] [Str (lit "n")] [MkSeries int64 [Int 1; Int 2]].

(** The same cells under the row labels 1 and 2, as a frame has them after
    a row was dropped and the index not reset. *)
Definition relabelled : DataFrame :=
  MkDataFrame [Int 1; Int 2] [Str (lit "n")] [MkSeries int64 [Int 1; Int 2]].

(** The same cells under the row labels 0.0 and 1.0. *)
Definition float_labelled : DataFrame :=
  MkDataFrame [Float 0; Float 4607182418800017408] [Str (lit "n")]
    [MkSeries int64 [Int 1; Int 2]].

Definition missing_file : exc :=
  MkExc (lit "FileNotFoundError") (lit "[Errno 2] No such file or directory") [].

(** Generated parsers the toy interpreter knows, by their text. *)
Definition src_exit : pystr := lit "import sys
sys.exit(0)".
Definition src_good : pystr := lit "import pandas as pd
def parse(pdf_path):
    return pd.DataFrame({'n': [1, 2]})".
Definition src_relabelled : pystr := lit "import pandas as pd
def parse(pdf_path):
    return pd.DataFrame({'n': [0, 1, 2]}).iloc[1:]".
Definition src_float_labelled : pystr := lit "import pandas as pd
def parse(pdf_path):
    return pd.DataFrame({'n': [1, 2]}, index=[0.0, 1.0])".
Definition src_none : pystr := lit "def parse(pdf_path):
    return None".
(** The same with a comment after it, as long as [src_good]. *)
Definition src_none_long : pystr :=
  src_none ++ lit "
" ++ replicate (length src_good - length src_none - 1) 35%N.
Definition src_raises : pystr := lit "def parse(pdf_path):
    raise AttributeError('no table')".
Definition src_syntax : pystr := lit "def parse(pdf_path:".
Definition src_load_raises : pystr := lit "raise AttributeError('no table')".
Definition src_loops : pystr := lit "def parse(pdf_path):
    while True:
        pass".
Definition src_interrupts : pystr := lit "def parse(pdf_path):
    raise KeyboardInterrupt".
Definition src_unprintable : pystr := lit "class E(Exception):
    def __str__(self):
        raise KeyboardInterrupt
def parse(pdf_path):
    raise E()".

Definition no_table : exc := MkExc (lit "AttributeError") (lit "no table") [].
Definition bad_syntax : exc := MkExc (lit "SyntaxError") (lit "'(' was never closed") [].

(** A module whose [parse] ends as [r] tells and leaves the files alone. *)
Definition ending_with (r : result pyobj) : module :=
  MkModule (Some (fun _ f => (r, f))).

Definition interpret (src : pystr) : result module :=
  if decide (src = src_exit) then Raise (SystemExit 0)
  else if decide (src = src_good) then Ok (ending_with (Ok (DF reference)))
  else if decide (src = src_relabelled) then Ok (ending_with (Ok (DF relabelled)))
  else if decide (src = src_float_labelled) then Ok (ending_with (Ok (DF float_labelled)))
  else if decide (src = src_none \/ src = src_none_long)
       then Ok (ending_with (Ok (Other (lit "<class 'NoneType'>"))))
  else if decide (src = src_raises) then Ok (ending_with (Raise (Exception no_table)))
  else if decide (src = src_syntax) then Raise (Exception bad_syntax)
  else if decide (src = src_load_raises) then Raise (Exception no_table)
  else if decide (src = src_loops) then Ok (ending_with Hang)
  else if decide (src = src_interrupts) then Ok (ending_with (Raise KeyboardInterrupt))
  else if decide (src = src_unprintable)
       then Ok (ending_with (Raise (Unprintable (lit "E") KeyboardInterrupt)))
  else Ok (MkModule None).

(** The file an import leaves the compiled module in. *)
Definition cache_file (p : pystr) : pystr :=
  let parts := split [slash] p in
  let name := List.last parts [] in
  str_join [slash]
    (removelast parts
     ++ [lit "__pycache__"; take (length name - 3) name ++ lit ".cpython-312.pyc"]).

(** A decimal numeral. *)
Definition int_of_str (s : pystr) : option Z :=
  Z.of_int <$> NilZero.int_of_string (string_of_list_ascii (map ascii_of_N s)).

(** The command lines the examples use, as argparse reads them. *)
Definition read_args (argv : list pystr) : Z + pystr * Z :=
  match argv with
  | [o] => if decide (o = lit "--help" \/ o = lit "-h") then inl 0 else inl 2
  | [o; target] =>
      if bool_decide (o = lit "--target") && negb (startswith (lit "-") target)
      then inr (target, 3) else inl 2
  | [o; target; o'; n] =>
      if bool_decide (o = lit "--target") && negb (startswith (lit "-") target)
         && bool_decide (o' = lit "--max-attempts")
      then match int_of_str n with
           | Some z => inr (target, z)
           | None => inl 2
           end
      else inl 2
  | _ => inl 2
  end.

(** [--target target --max-attempts n] *)
Definition args (target : pystr) (n : Z) : list pystr :=
  [lit "--target"; target; lit "--max-attempts"; str_int n].

(** A text UTF-8 cannot encode holds a surrogate. *)
Definition surrogate (c : N) : bool := ((55296 <=? c) && (c <=? 57343))%N.

(** The model answers with [responses], one per request, and fails when
    they are used up; stored parsers are run by [interp], and an import
    that succeeds leaves the compiled module behind. *)
Definition world_with (interp : pystr -> result module) (responses : list pystr) : World :=
  {| parse_args := read_args;
     read_csv := fun fs p =>
       match fs !! p with Some _ => inr reference | None => inl missing_file end;
     repr_labels := fun l => lit "[" ++ str_join (lit ", ") (map show l) ++ lit "]";
     repr_row := show_dict show;
     repr_dtypes := show_dict show_dtype;
     to_string := fun df => str_join (lit "  ") (map show (columns df));
     equals := equal_by_value;
     pdfplumber_open := fun fs p =>
       match fs !! p with
       | Some text => inr [MkPage (inr text) (inr [])]
       | None => inl missing_file
       end;
     generate_content := fun k _ =>
       match responses !! k with
       | Some text => inr text
       | None => inl (MkExc (lit "ResourceExhausted") (lit "429 quota exceeded") [])
       end;
     open_error := fun _ _ => None;
     encode_error := fun text =>
       if existsb surrogate text
       then Some (MkExc (lit "UnicodeEncodeError") (lit "surrogates not allowed") [])
       else None;
     exec_module := fun _ fs p =>
       match fs !! p with
       | Some src =>
           match interp src with
           | Ok m => (Ok m, <[cache_file p := src]> fs)
           | other => (other, fs)
           end
       | None => (Raise (Exception missing_file), fs)
       end;
     traceback := fun _ _ => [] |}.

Definition world : list pystr -> World := world_with interpret.

(** The same world on a system that takes the compiled module an
    earlier import left for up to date when the source has the size it
    had then, as the interpreter does for a source rewritten within the
    second: the import then runs the module compiled from the earlier
    source. *)
Definition stale_world (responses : list pystr) : World :=
  let D := world responses in
  {| parse_args := parse_args D;
     read_csv := read_csv D;
     repr_labels := repr_labels D;
     repr_row := repr_row D;
     repr_dtypes := repr_dtypes D;
     to_string := to_string D;
     equals := equals D;
     pdfplumber_open := pdfplumber_open D;
     generate_content := generate_content D;
     open_error := open_error D;
     encode_error := encode_error D;
     exec_module := fun k fs p =>
       match fs !! p, fs !! cache_file p with
       | Some src, Some compiled =>
           if bool_decide (length compiled = length src)
           then (interpret compiled, fs)
           else exec_module D k fs p
       | _, _ => exec_module D k fs p
       end;
     traceback := traceback D |}.

(** The pieces of a response that wraps a parser in a fenced block. *)
Definition prose_before : pystr := lit "Here is `parse`:
".
Definition wrapped_source : pystr := lit "
import pandas as pd
def parse(pdf_path):
    return pd.DataFrame({'n': [1, 2]})
".
Definition prose_after : pystr := lit "
Done.".

(** A response that is a labelled block with nothing in it. *)
Definition empty_block : pystr := lit "```python
```".

(** A source text, and the responses that wrap it in a block labelled
    [py], in one labelled [python3] and in a block without label. *)
Definition short_source : pystr := lit "
x = 1
".
Definition py_block : pystr := fence ++ lit "py" ++ short_source ++ fence.
Definition python3_block : pystr := python_fence ++ lit "3" ++ short_source ++ fence.
Definition plain_block : pystr := fence ++ short_source ++ fence.

(** The target of the examples and its files. *)
Definition bank : pystr := lit "icici".
Definition parser_path : pystr := parser_file bank.
Definition pdf_path : pystr := pdf_file bank.
Definition csv_path : pystr := csv_file bank.

Definition disk : filesystem :=
  <[pdf_path := lit "Date Description Debit Credit Balance"]>
  (<[csv_path := lit "n
1
2
"]> ∅).

Definition start : state := MkState disk 0 [].

(** The state in which [src] is the stored parser of the target. *)
Definition with_parser (src : pystr) : state :=
  MkState (<[parser_path := src]> disk) 0 [].

(** The verdict on the stored parser [src], and the [return] statement
    that gave it. *)
Definition verdict_on (src : pystr) : result (bool * option pystr) :=
  fst (test_parser (world []) parser_path pdf_path reference (with_parser src)).

Definition kind_of (src : pystr) : option branch :=
  match fst (test_parser_at (world []) parser_path pdf_path reference
               (with_parser src)) with
  | Ok (b, _) => Some b
  | _ => None
  end.

End Demo.

(** ** Notions used in the statements *)

(** No occurrence of [sep] in [a ++ t] begins inside [a]. *)
Fixpoint none_begins (sep a t : pystr) : bool :=
  match a with
  | [] => true
  | _ :: a' => negb (startswith sep (a ++ t)) && none_begins sep a' t
  end.

(** No fence begins inside [a], also when backticks follow it. *)
Definition fence_free (a : pystr) : Prop :=
  contains fence (a ++ [backtick; backtick]) = false.

(** In the state [s] the parser stored at [parser_path] loads, has a
    [parse], and [parse(pdf_path)], called with the files as the import
    left them, returns [v]. *)
Definition candidate_returns (W : World) (s : state) (parser_path pdf_path : pystr)
    (v : pyobj) : Prop :=
  exists m f,
    fst (exec_module W (requests s) (fs s) parser_path) = Ok m /\
    parse m = Some f /\
    fst (f pdf_path (snd (exec_module W (requests s) (fs s) parser_path))) = Ok v.

(** [a.equals(b)] is the equality by value of the two tables.  pandas
    compares labels and cells as [==] does, a missing value matching a
    missing value; the arrays of numbers it hands to NumPy, which turns
    an [int] into a [float] before comparing the two, so that the answer
    is another only where an [int] beyond 2^53 meets a [float]. *)
Definition decided_by_value (W : World) (a b : DataFrame) : Prop :=
  equals W a b = equal_by_value a b.

(** A label that is a string. *)
Definition is_str (x : scalar) : Prop := exists t, x = Str t.

(** What [except Exception] turns into a verdict: a value returned, or
    an [Exception] that can be printed. *)
Definition caught {A} (r : result A) : bool :=
  match r with
  | Ok _ | Raise (Exception _) => true
  | _ => false
  end.

(** The verdict on a value returned: what the comparison gives, an
    exception of the comparison going through the handler. *)
Definition judge (W : World) (expected_df : DataFrame) (v : pyobj) (s : state)
    : result (branch * (bool * option pystr)) :=
  fst (try_except (compare W expected_df v)
         (fun e => ret (ExecutionError, (false, Some (execution_error_text e)))) s).

(** [test_parser] returns [v], through the [return] statement [b]. *)
Definition returns_at (W : World) (parser_path pdf_path : pystr) (expected_df : DataFrame)
    (s : state) (b : branch) (v : bool * option pystr) : Prop :=
  fst (test_parser_at W parser_path pdf_path expected_df s) = Ok (b, v) /\
  fst (test_parser W parser_path pdf_path expected_df s) = Ok v.

(** The prompts sent, the files written and the verdicts reached, as a
    trace records them. *)
Definition prompts (evs : list event) : list pystr :=
  omap (fun ev => match ev with Generated p _ => Some p | _ => None end) evs.

Definition stored (evs : list event) : list (pystr * pystr) :=
  omap (fun ev => match ev with Persisted path code => Some (path, code) | _ => None end) evs.


(** The error texts of the rejected candidates. *)
Definition errors (evs : list event) : list pystr :=
  omap (fun ev => match ev with Validated _ (Ok (false, Some e)) => Some e | _ => None end) evs.





(** ** Further notions: the links of a trace *)

(** How the events of a run hang together, [k] requests having been made
    before: the answer recorded with a prompt is the model's answer to
    that request; a failed request ends the run, and so does an answer
    that could not be stored; after an answer, the code stored is the
    answer with its fences removed, it is stored in the parser file of
    the bank, and that file is the one validated. *)
Inductive linked (W : World) (bank : pystr) : nat -> list event -> Prop :=
| linked_nil k :
    linked W bank k []
| linked_failed k p e :
    generate_content W k p = inl e ->
    linked W bank k [Generated p (inl e)]
| linked_unstored k p a :
    generate_content W k p = inr a ->
    linked W bank k [Generated p (inr a)]
| linked_pass k p a code v rest :
    generate_content W k p = inr a ->
    clean_up W a = Ok code ->
    linked W bank (S k) rest ->
    linked W bank k
      (Generated p (inr a) :: Persisted (parser_file bank) code ::
       Validated (parser_file bank) v :: rest).

(** The prompt [p] quotes the previous code and the error text, when
    there are both and the code is not empty; the error text is then not
    empty either. *)
Definition quoted (previous_code error_msg : option pystr) (p : pystr) : Prop :=
  forall code e, previous_code = Some code -> error_msg = Some e -> code <> [] ->
    e <> [] /\ occurs_in code p /\ occurs_in e p.

(** The events of a loop entered with [previous_code] and [error_msg]:
    every prompt quotes what the pass before it left. *)
Inductive fed : option pystr -> option pystr -> list event -> Prop :=
| fed_nil previous_code error_msg :
    fed previous_code error_msg []
| fed_failed previous_code error_msg p ans :
    quoted previous_code error_msg p ->
    fed previous_code error_msg [Generated p ans]
| fed_retry previous_code error_msg p a path code path' err rest :
    quoted previous_code error_msg p ->
    fed (Some code) err rest ->
    fed previous_code error_msg
      (Generated p (inr a) :: Persisted path code ::
       Validated path' (Ok (false, err)) :: rest)
| fed_last previous_code error_msg p a path code path' v :
    quoted previous_code error_msg p ->
    fed previous_code error_msg
      [Generated p (inr a); Persisted path code; Validated path' v].

(** What the prober shows of a list of pages: their number, the first
    500 code points of the first page's text, the number of its tables and
    the number of rows of the first of them. *)
Definition shown (pages : list page)
    : nat * option ((exc + pystr) * (exc + nat * option nat)) :=
  (length pages,
   match pages with
   | [] => None
   | first_page :: _ =>
       Some (match extract_text first_page with
             | inl e => inl e
             | inr text => inr (take 500 text)
             end,
             match extract_tables first_page with
             | inl e => inl e
             | inr tables => inr (length tables, length <$> List.head tables)
             end)
   end).

(** ** The repository's test of the stored parser ([test_parser.py]) *)

Section Tests.

Variable W : World.

(** [str(label)] and [repr(label)] of a column label. *)
Variable str_label : scalar -> pystr.
Variable repr_label : scalar -> pystr.

(** [str(dtype)] *)
Definition str_dtype (d : dtype) : pystr :=
  match d with
  | int64 => lit "int64"
  | float64 => lit "float64"
  | bool_ => lit "bool"
  | object_ => lit "object"
  | datetime64 => lit "datetime64[ns]"
  end.

(** [assert cond, msg] *)
Definition assert_ (cond : bool) (msg : pystr) : M unit :=
  if cond then ret tt
  else raise (Exception (MkExc (lit "AssertionError") msg
                           (traceback W (lit "AssertionError") msg))).

(** [df[col].dtype]: the dtype of the one column whose label equals
    [col]; with several such columns [df[col]] is a DataFrame and has no
    [dtype], with none it is a [KeyError]. *)
Definition column_dtype (df : DataFrame) (col : scalar) : result dtype :=
  match filter (fun lc => value (fst lc) = value col) (zip (columns df) (data df)) with
  | [] => Raise (Exception (MkExc (lit "KeyError") (repr_label col)
                              (traceback W (lit "KeyError") (repr_label col))))
  | [lc] => Ok (s_dtype (snd lc))
  | _ :: _ :: _ =>
      Raise (Exception (raise_here W "AttributeError"
                          "'DataFrame' object has no attribute 'dtype'"))
  end.

(** The dtypes of the columns, by the values of their labels. *)
Definition dtypes_by_value (df : DataFrame) : list (scalar * dtype) :=
  (fun lc => (value (fst lc), s_dtype (snd lc))) <$> zip (columns df) (data df).

(** Lines 42 and 43: the dtype of every expected column is compared. *)
Fixpoint check_dtypes (expected_df actual_df : DataFrame) (cols : list scalar) : M unit :=
  match cols with
  | [] => ret tt
  | col :: cols' =>
      actual_dtype <- of_result (column_dtype actual_df col) ;;
      expected_dtype <- of_result (column_dtype expected_df col) ;;
      assert_ (bool_decide (actual_dtype = expected_dtype))
        (lit "Data type mismatch for column " ++ str_label col
         ++ lit ": expected " ++ str_dtype expected_dtype
         ++ lit ", got " ++ str_dtype actual_dtype) ;;;
      check_dtypes expected_df actual_df cols'
  end.

(** [test_icici_parser], as the interpreter runs it. *)
Definition test_icici_parser : M unit :=
  let parser_path := lit "custom_parser/icici_parser.py" in
  let pdf_path := lit "data/icici/icici_sample.pdf" in
  let csv_path := lit "data/icici/icici_sample.csv" in
  parser_there <- exists_ parser_path ;;
  assert_ parser_there (lit "Parser file not found: " ++ parser_path) ;;;
  pdf_there <- exists_ pdf_path ;;
  assert_ pdf_there (lit "PDF file not found: " ++ pdf_path) ;;;
  csv_there <- exists_ csv_path ;;
  assert_ csv_there (lit "CSV file not found: " ++ csv_path) ;;;
  expected_df <- (fun s => (lift (read_csv W (fs s) csv_path), s)) ;;
  actual <- run_parse W parser_path pdf_path ;;
  match actual with
  | Other type_repr =>
      assert_ false (lit "Expected DataFrame, got " ++ type_repr)
  | DF actual_df =>
      assert_ (same_labels (columns actual_df) (columns expected_df))
        (lit "Column mismatch: expected " ++ repr_labels W (columns expected_df)
         ++ lit ", got " ++ repr_labels W (columns actual_df)) ;;;
      assert_ (bool_decide (shape actual_df = shape expected_df))
        (lit "Shape mismatch: expected " ++ repr_shape (shape expected_df)
         ++ lit ", got " ++ repr_shape (shape actual_df)) ;;;
      check_dtypes expected_df actual_df (columns expected_df) ;;;
      assert_ (equals W expected_df actual_df)
        (lit "Parser output does not match expected CSV via DataFrame.equals")
  end.

End Tests.

(** ** The rows gathered by the hand-written parser ([icici_parser.py]) *)

Section HandWritten.

(** [page.extract_table()]: the table of the page, [None] when it has
    none. *)
Variable extract_table : page -> exc + option (list (list (option pystr))).

(** The rows one table adds: [table[1:]] when [table] is true. *)
Definition rows_after_header (table : option (list (list (option pystr))))
    : list (list (option pystr)) :=
  match table with
  | Some (_ :: rows) => rows
  | _ => []
  end.

(** Lines 9 to 13 of [parse]: [all_data] after the pages are gone
    through. *)
Fixpoint gather (pages : list page) (all_data : list (list (option pystr)))
    : result (list (list (option pystr))) :=
  match pages with
  | [] => Ok all_data
  | page :: pages' =>
      match extract_table page with
      | inl e => Raise (Exception e)
      | inr table => gather pages' (all_data ++ rows_after_header table)
      end
  end.

End HandWritten.

(** Two zero-row tables that differ in a dtype only. *)
Definition empty_object : DataFrame :=
  MkDataFrame [] [Str (lit "n")] [MkSeries object_ []].
Definition empty_int : DataFrame :=
  MkDataFrame [] [Str (lit "n")] [MkSeries int64 []].

(** A world whose every stored parser returns [empty_int]. *)
Definition empty_table_world : World :=
  Demo.world_with (fun _ => Ok (Demo.ending_with (Ok (DF empty_int)))) [].

(** A world whose every document has one page with the text [text] and
    no table, and two texts that differ after 500 code points. *)
Definition one_page_world (text : pystr) : World :=
  let D := Demo.world [] in
  {| parse_args := parse_args D;
     read_csv := read_csv D;
     repr_labels := repr_labels D;
     repr_row := repr_row D;
     repr_dtypes := repr_dtypes D;
     to_string := to_string D;
     equals := equals D;
     pdfplumber_open := fun _ _ => inr [MkPage (inr text) (inr [])];
     generate_content := generate_content D;
     open_error := open_error D;
     encode_error := encode_error D;
     exec_module := exec_module D;
     traceback := traceback D |}.

Definition long_text (last : N) : pystr := replicate 500 97%N ++ [last].

(** A reading of [extract_table] on the pages of the examples: the first
    of the page's tables. *)
Definition first_table (p : page) : exc + option (list (list (option pystr))) :=
  match extract_tables p with
  | inl e => inl e
  | inr tables => inr (List.head tables)
  end.

(** Two pages that repeat the header row. *)
Definition header_row : list (option pystr) := [Some (lit "Date"); Some (lit "Balance")].
Definition two_pages : list page :=
  [MkPage (inr []) (inr [[header_row; [Some (lit "01-08-2024"); Some (lit "10")]]]);
   MkPage (inr []) (inr [[header_row; [Some (lit "02-08-2024"); Some (lit "20")];
                          [Some (lit "03-08-2024"); None]]])].

(** ** Strings: searching and splitting *)

Section StringLemmas.

Implicit Types (p s t sep cur : pystr).

Lemma startswith_app p t : startswith p (p ++ t) = true.
Proof. induction p as [|a p IH]; simpl; [done|]. by rewrite N.eqb_refl. Qed.

Lemma startswith_inv p s : startswith p s = true -> exists t, s = p ++ t.
Proof.
  revert s. induction p as [|a p IH]; intros s H; simpl in *.
  - by exists s.
  - destruct s as [|b s]; [done|].
    apply andb_true_iff in H as [Hab Hp]. apply N.eqb_eq in Hab as ->.
    destruct (IH _ Hp) as [t ->]. by exists t.
Qed.

(** Only the first [length p] characters matter. *)
Lemma startswith_long p s t :
  (length p <= length s)%nat -> startswith p (s ++ t) = startswith p s.
Proof.
  revert s. induction p as [|a p IH]; intros s Hl; simpl in *.
  - by destruct (s ++ t), s.
  - destruct s as [|b s]; simpl in *; [lia|]. rewrite IH; [done|lia].
Qed.

Lemma startswith_prefix p q s :
  startswith (p ++ q) s = true -> startswith p s = true.
Proof.
  intros [t ->]%startswith_inv. rewrite <- app_assoc. apply startswith_app.
Qed.

Lemma contains_here x s : startswith x s = true -> contains x s = true.
Proof. intros H. destruct s; simpl in *; by rewrite H. Qed.

Lemma contains_occurs_in x s : contains x s = true <-> occurs_in x s.
Proof.
  split.
  - induction s as [|c s IH]; simpl; intros H.
    + rewrite orb_false_r in H. apply startswith_inv in H as [t Ht].
      by exists [], t.
    + apply orb_true_iff in H as [H|H].
      * apply startswith_inv in H as [t Ht]. by exists [], t.
      * destruct (IH H) as (pre & post & ->). by exists (c :: pre), post.
  - intros (pre & post & ->). induction pre as [|c pre IH].
    + rewrite app_nil_l. apply contains_here, startswith_app.
    + cbn [app contains]. rewrite IH. apply orb_true_r.
Qed.

Lemma occurs_in_here x t : occurs_in x (x ++ t).
Proof. by exists [], t. Qed.

Lemma occurs_in_app_r x s t : occurs_in x t -> occurs_in x (s ++ t).
Proof. intros (pre & post & ->). exists (s ++ pre), post. by rewrite <- app_assoc. Qed.

Lemma occurs_in_app_l x s t : occurs_in x s -> occurs_in x (s ++ t).
Proof. intros (pre & post & ->). exists pre, (post ++ t). by rewrite <- !app_assoc. Qed.

Lemma contains_app_l x s t : contains x s = true -> contains x (s ++ t) = true.
Proof.
  rewrite !contains_occurs_in. intros (pre & post & ->).
  exists pre, (post ++ t). by rewrite <- !app_assoc.
Qed.

Lemma contains_prefix p q s : contains (p ++ q) s = true -> contains p s = true.
Proof.
  rewrite !contains_occurs_in. intros (pre & post & ->).
  exists pre, (q ++ post). by rewrite <- !app_assoc.
Qed.

Lemma none_begins_of_contains sep a t :
  contains sep (a ++ t) = false -> none_begins sep a t = true.
Proof.
  induction a as [|c a IH]; [done|]. cbn [app contains none_begins].
  intros [H1 H2]%orb_false_iff. rewrite IH by done.
  change (c :: a ++ t) with ((c :: a) ++ t) in H1. simpl in H1 |- *.
  by rewrite H1.
Qed.

Lemma none_begins_weaken p q a t :
  none_begins p a t = true -> none_begins (p ++ q) a t = true.
Proof.
  induction a as [|c a IH]; [done|]. cbn [none_begins].
  intros [H1 H2]%andb_true_iff. rewrite IH by done.
  destruct (startswith (p ++ q) ((c :: a) ++ t)) eqn:E; [|done].
  apply startswith_prefix in E. by rewrite E in H1.
Qed.

Lemma split_from_skip sep a t cur :
  none_begins sep a t = true ->
  split_from sep (a ++ t) cur 0 = split_from sep t (rev a ++ cur) 0.
Proof.
  revert cur. induction a as [|c a IH]; intros cur; [done|].
  cbn [none_begins]. intros [H1 H2]%andb_true_iff.
  apply negb_true_iff in H1. cbn [app split_from].
  change (c :: a ++ t) with ((c :: a) ++ t). rewrite H1, IH by done.
  cbn [rev]. by rewrite <- app_assoc.
Qed.

Lemma split_from_pass sep u t cur :
  split_from sep (u ++ t) cur (length u) = split_from sep t cur 0.
Proof. induction u as [|c u IH]; simpl; [by destruct t|done]. Qed.

Lemma split_from_sep sep t cur :
  sep <> [] ->
  split_from sep (sep ++ t) cur 0 = rev cur :: split_from sep t [] 0.
Proof.
  destruct sep as [|c p]; [done|]. intros _.
  cbn [app split_from]. change (c :: p ++ t) with ((c :: p) ++ t).
  rewrite startswith_app. cbn [length Nat.pred]. by rewrite split_from_pass.
Qed.

(** The first piece starts with what was read so far. *)
Lemma split_from_first sep t cur :
  exists y rest, split_from sep t cur 0 = (rev cur ++ y) :: rest.
Proof.
  revert cur. induction t as [|c t IH]; intros cur; cbn [split_from].
  - exists [], []. by rewrite app_nil_r.
  - destruct (startswith sep (c :: t)).
    + eexists [], _. by rewrite app_nil_r.
    + destruct (IH (c :: cur)) as (y & rest & ->).
      exists (c :: y), rest. cbn [rev]. by rewrite <- app_assoc.
Qed.

Lemma split_cut sep a t :
  sep <> [] -> none_begins sep a (sep ++ t) = true ->
  split sep (a ++ sep ++ t) = a :: split sep t.
Proof.
  intros Hsep H. unfold split.
  rewrite split_from_skip, split_from_sep by done.
  by rewrite app_nil_r, rev_involutive.
Qed.

Lemma split_whole sep a :
  contains sep a = false -> split sep a = [a].
Proof.
  intros H. unfold split. rewrite <- (app_nil_r a) at 1.
  rewrite split_from_skip.
  - cbn. by rewrite app_nil_r, rev_involutive.
  - apply none_begins_of_contains. by rewrite app_nil_r.
Qed.

(** Where the separator occurs, [split] yields at least two pieces. *)
Lemma split_from_two sep s cur :
  sep <> [] -> contains sep s = true ->
  exists x y rest, split_from sep s cur 0 = x :: y :: rest.
Proof.
  intros Hsep. revert cur. induction s as [|c s IH]; intros cur H.
  - destruct sep; [done|]. done.
  - cbn [contains] in H. cbn [split_from].
    destruct (startswith sep (c :: s)) eqn:E.
    + destruct s as [|c' s].
      * destruct sep as [|a [|b sep]]; [done| |].
        -- simpl. by eexists _, _, _.
        -- simpl in E. by rewrite andb_false_r in E.
      * destruct (Nat.pred (length sep)) as [|k].
        -- destruct (split_from_first sep (c' :: s) []) as (y & rest & ->).
           by eexists _, _, _.
        -- cbn [split_from].
           assert (exists y rest, split_from sep s [] k = y :: rest) as (y & rest & ->);
             [|by eexists _, _, _].
           clear. revert k. induction s as [|d s IHs]; intros k; simpl.
           ++ by eexists _, _.
           ++ destruct k; [|apply IHs].
              destruct (startswith sep (d :: s)); [by eexists _, _|].
              destruct (split_from_first sep s [d]) as (y & rest & ->).
              by eexists _, _.
    + simpl in H. destruct (IH (c :: cur) H) as (x & y & rest & ->).
      by eexists _, _, _.
Qed.

Example split_pieces :
  split (lit "ab") (lit "xabyabz") = [lit "x"; lit "y"; lit "z"].
Proof. reflexivity. Qed.

Example split_no_overlap : split (lit "aa") (lit "aaa") = [lit ""; lit "a"].
Proof. reflexivity. Qed.

Example strip_both_ends : strip (lit "  a b
 ") = lit "a b".
Proof. reflexivity. Qed.

Example str_int_signs :
  str_int 0 = lit "0" /\ str_int (-12) = lit "-12" /\ str_int 305 = lit "305".
Proof. repeat split; reflexivity. Qed.

End StringLemmas.

(** ** The fence-stripping step *)

Section CleanUp.

Variable W : World.

Lemma python_fence_eq :
  python_fence = [96; 96; 96; 112; 121; 116; 104; 111; 110]%N.
Proof. reflexivity. Qed.

Lemma item_second {A} (x y : A) l : item W (x :: y :: l) 1 = Ok y.
Proof. done. Qed.

Lemma item_first {A} (x : A) l : item W (x :: l) 0 = Ok x.
Proof. done. Qed.

Lemma fence_free_contains a : fence_free a -> contains fence a = false.
Proof.
  unfold fence_free. intros H. destruct (contains fence a) eqn:E; [|done].
  by rewrite (contains_app_l _ _ _ E) in H.
Qed.

Lemma fence_free_fence a t :
  fence_free a -> none_begins fence a (fence ++ t) = true.
Proof.
  intros H%none_begins_of_contains. revert H.
  induction a as [|c a IH]; [done|]. cbn [none_begins].
  intros [H1 H2]%andb_true_iff. rewrite IH by done.
  rewrite andb_true_r, <- H1. f_equal.
  change (fence ++ t) with ([backtick; backtick] ++ backtick :: t).
  rewrite (app_assoc (c :: a)). apply startswith_long.
  rewrite length_app. simpl. lia.
Qed.

Lemma fence_free_python_fence a t :
  fence_free a -> none_begins python_fence a (fence ++ t) = true.
Proof.
  intros H. change python_fence with (fence ++ lit "python").
  by apply none_begins_weaken, fence_free_fence.
Qed.

(** After the body, the closing fence either ends the piece or is part
    of it. *)
Lemma python_fence_piece post cur :
  startswith [backtick] post = false ->
  exists y rest,
    split_from python_fence (fence ++ post) cur 0 = (rev cur ++ y) :: rest /\
    (y = [] \/ exists z, y = fence ++ z).
Proof.
  intros Hpost.
  assert (Hq : match post with [] => True | q :: _ => (96 =? q)%N = false end).
  { destruct post as [|q post]; [done|]. cbn [startswith] in Hpost.
    rewrite andb_true_r in Hpost. exact Hpost. }
  change (fence ++ post) with (96%N :: 96%N :: 96%N :: post).
  cbn [split_from].
  destruct (startswith python_fence (96%N :: 96%N :: 96%N :: post)).
  { eexists [], _. rewrite app_nil_r. eauto. }
  assert (startswith python_fence (96%N :: 96%N :: post) = false) as ->.
  { rewrite python_fence_eq. destruct post as [|q post]; cbn [startswith].
    - by rewrite !N.eqb_refl.
    - by rewrite Hq, !N.eqb_refl. }
  assert (startswith python_fence (96%N :: post) = false) as ->.
  { rewrite python_fence_eq. destruct post as [|q post]; cbn [startswith].
    - by rewrite !N.eqb_refl.
    - by rewrite Hq, !N.eqb_refl. }
  destruct (split_from_first python_fence post (96%N :: 96%N :: 96%N :: cur))
    as (y & rest & ->).
  exists (fence ++ y), rest. split; [|eauto].
  cbn [rev]. by rewrite <- !app_assoc.
Qed.

Lemma clean_up_labelled pre body post :
  fence_free pre -> fence_free body -> startswith [backtick] post = false ->
  clean_up W (pre ++ python_fence ++ body ++ fence ++ post) = Ok (strip body).
Proof.
  intros Hpre Hbody Hpost. unfold clean_up.
  assert (contains python_fence (pre ++ python_fence ++ body ++ fence ++ post) = true) as ->.
  { apply contains_occurs_in. by eexists _, _. }
  rewrite split_cut; [|done|].
  2:{ change (python_fence ++ ?t) with (fence ++ lit "python" ++ t).
      by apply fence_free_python_fence. }
  unfold split at 1.
  rewrite split_from_skip by by apply fence_free_python_fence.
  destruct (python_fence_piece post (rev body ++ []) Hpost)
    as (y & rest & -> & Hy).
  rewrite item_second, app_nil_r, rev_involutive.
  destruct Hy as [->|[z ->]].
  - rewrite app_nil_r, split_whole by by apply fence_free_contains.
    by rewrite item_first.
  - rewrite split_cut by (done || by apply fence_free_fence).
    by rewrite item_first.
Qed.

Lemma clean_up_unlabelled pre body post :
  fence_free pre -> fence_free body ->
  contains python_fence (pre ++ fence ++ body ++ fence ++ post) = false ->
  clean_up W (pre ++ fence ++ body ++ fence ++ post) = Ok (strip body).
Proof.
  intros Hpre Hbody Hno. unfold clean_up. rewrite Hno.
  assert (contains fence (pre ++ fence ++ body ++ fence ++ post) = true) as ->.
  { apply contains_occurs_in. by eexists _, _. }
  rewrite split_cut by (done || by apply fence_free_fence).
  rewrite split_cut by (done || by apply fence_free_fence).
  rewrite item_second, split_whole by by apply fence_free_contains.
  by rewrite item_first.
Qed.

Lemma clean_up_bare r :
  contains fence r = false -> clean_up W r = Ok (strip r).
Proof.
  intros H. unfold clean_up. rewrite H.
  destruct (contains python_fence r) eqn:E; [|done].
  change python_fence with (fence ++ lit "python") in E.
  apply contains_prefix in E. congruence.
Qed.

(** The step never raises: where a fence occurs, both indexings are in
    range. *)
Lemma clean_up_total r : exists code, clean_up W r = Ok code.
Proof.
  unfold clean_up.
  destruct (contains python_fence r) eqn:E1.
  - destruct (split_from_two python_fence r [] ltac:(done) E1) as (x & y & l & H).
    unfold split at 1. rewrite H, item_second.
    destruct (split_from_first fence y []) as (z & l' & H').
    unfold split. rewrite H', item_first. eauto.
  - destruct (contains fence r) eqn:E2; [|eauto].
    destruct (split_from_two fence r [] ltac:(done) E2) as (x & y & l & H).
    unfold split at 1. rewrite H, item_second.
    destruct (split_from_first fence y []) as (z & l' & H').
    unfold split. rewrite H', item_first. eauto.
Qed.

(** The label looked for is [python]: any other label stays in the text. *)
Example clean_up_other_label :
  clean_up W (lit "```py
x = 1
```") = Ok (lit "py
x = 1").
Proof. reflexivity. Qed.

Example clean_up_empty_block : clean_up W Demo.empty_block = Ok [].
Proof. reflexivity. Qed.

End CleanUp.
(** ** Values, labels and tables up to [==] *)

Create HintDb monad.
#[global] Hint Unfold bind ret raise of_result gets log write_parser load call
  try_except : monad.

(** Expose the state passing of a monadic definition. *)
Ltac run_monad := repeat autounfold with monad; cbv beta.

Section Values.

Implicit Types (x y : scalar) (l : list scalar) (a b : DataFrame).

Lemma same_value_refl x : same_value x x = true.
Proof. unfold same_value. by rewrite bool_decide_eq_true_2. Qed.



Lemma same_labels_length l l' : same_labels l l' = true -> length l = length l'.
Proof.
  unfold same_labels. intros H%bool_decide_eq_true_1.
  apply (f_equal length) in H. by rewrite !length_map in H.
Qed.

Lemma equal_by_value_refl a : equal_by_value a a = true.
Proof. unfold equal_by_value. by rewrite bool_decide_eq_true_2. Qed.

Lemma equal_by_value_sym a b : equal_by_value a b = equal_by_value b a.
Proof. unfold equal_by_value. apply bool_decide_ext. split; congruence. Qed.

(** Tables that are equal have the same column labels up to [==], and
    the same shape. *)
Lemma equal_by_value_columns a b :
  equal_by_value a b = true -> same_labels (columns b) (columns a) = true.
Proof.
  unfold equal_by_value, same_labels. intros H%bool_decide_eq_true_1.
  apply bool_decide_eq_true_2. by injection H.
Qed.

Lemma equal_by_value_shape a b : equal_by_value a b = true -> shape b = shape a.
Proof.
  unfold equal_by_value, shape. intros H%bool_decide_eq_true_1.
  injection H as Hi Hc _.
  apply (f_equal length) in Hi, Hc. rewrite !length_map in Hi, Hc. congruence.
Qed.

(** Tables that are equal have cells of the same value. *)
Lemma equal_by_value_cell a b i j x y :
  equal_by_value a b = true -> cell a i j = Some x -> cell b i j = Some y ->
  value x = value y.
Proof.
  unfold equal_by_value, cell. intros H%bool_decide_eq_true_1 Hx Hy.
  injection H as _ _ Hd.
  destruct (data a !! i) as [ca|] eqn:Ea; [|done].
  destruct (data b !! i) as [cb|] eqn:Eb; [|done].
  cbn in Hx, Hy.
  apply (f_equal (fun cs : list Series => cs !! i)) in Hd.
  rewrite !list_lookup_fmap, Ea, Eb in Hd. cbn in Hd.
  injection Hd as _ Hv.
  apply (f_equal (fun vs : list scalar => vs !! j)) in Hv.
  rewrite !list_lookup_fmap, Hx, Hy in Hv. cbn in Hv. congruence.
Qed.

(** The kind of a row label does not count. *)
Example equal_float_labels : equal_by_value Demo.reference Demo.float_labelled = true.
Proof. reflexivity. Qed.

Example unequal_other_labels : equal_by_value Demo.reference Demo.relabelled = false.
Proof. reflexivity. Qed.

Example value_examples :
  value (Float 4607182418800017408) = Int 1 /\ value (Bool true) = Int 1 /\
  value (Float 4609434218613702656) = Float 4609434218613702656 /\
  same_value (Str (lit "1")) (Int 1) = false /\ same_value NaN NaN = true.
Proof. repeat split; reflexivity. Qed.

End Values.

(** ** The validation harness *)

Section Harness.

Variable W : World.

Implicit Types (s : state) (expected_df actual_df : DataFrame).

Lemma lit_app_nonempty c str (rest : pystr) : lit (String c str) ++ rest <> [].
Proof. done. Qed.

Lemma not_dataframe_text_nonempty t : not_dataframe_text t <> [].
Proof. apply lit_app_nonempty. Qed.
Lemma column_mismatch_text_nonempty e a : column_mismatch_text W e a <> [].
Proof. apply lit_app_nonempty. Qed.
Lemma shape_mismatch_text_nonempty e a : shape_mismatch_text e a <> [].
Proof. apply lit_app_nonempty. Qed.
Lemma not_equal_text_nonempty e a re ra : not_equal_text W e a re ra <> [].
Proof. apply lit_app_nonempty. Qed.
Lemma execution_error_text_nonempty e : execution_error_text e <> [].
Proof. apply lit_app_nonempty. Qed.

(** Loading and calling change the files only. *)
Lemma run_parse_frame parser_path pdf_path s :
  requests (snd (run_parse W parser_path pdf_path s)) = requests s /\
  trace (snd (run_parse W parser_path pdf_path s)) = trace s.
Proof.
  unfold run_parse. run_monad.
  destruct (fst (exec_module W (requests s) (fs s) parser_path)) as [m|r|]; [|done..].
  by destruct (parse m).
Qed.

(** The comparison has no effect and does not look at the state. *)
Lemma compare_pure expected_df v s :
  exists r, forall s', compare W expected_df v s' = (r, s') /\
    match r with
    | Ok (_, (true, None)) => True
    | Ok (_, (false, Some msg)) => msg <> []
    | Raise (Exception _) => True
    | _ => False
    end.
Proof.
  unfold compare. destruct v as [actual_df|t].
  - destruct (same_labels (columns actual_df) (columns expected_df)); cbn [negb].
    2:{ eexists. intros s'. split; [done|]. apply column_mismatch_text_nonempty. }
    destruct (bool_decide (shape actual_df = shape expected_df)); cbn [negb].
    2:{ eexists. intros s'. split; [done|]. apply shape_mismatch_text_nonempty. }
    destruct (equals W expected_df actual_df); [by eexists|].
    run_monad. unfold iloc0.
    destruct (index expected_df); [by eexists|].
    destruct (index actual_df); [by eexists|].
    eexists. intros s'. split; [done|]. apply not_equal_text_nonempty.
  - eexists. intros s'. split; [done|]. apply not_dataframe_text_nonempty.
Qed.

Lemma compare_state expected_df v s : snd (compare W expected_df v s) = s.
Proof. destruct (compare_pure expected_df v s) as [r H]. by rewrite (proj1 (H s)). Qed.

Lemma compare_fst expected_df v s s' :
  fst (compare W expected_df v s) = fst (compare W expected_df v s').
Proof.
  destruct (compare_pure expected_df v s) as [r H].
  by rewrite (proj1 (H s)), (proj1 (H s')).
Qed.

Lemma judge_fst expected_df v s s' : judge W expected_df v s = judge W expected_df v s'.
Proof.
  unfold judge, try_except.
  destruct (compare_pure expected_df v s) as [r H].
  rewrite (proj1 (H s)), (proj1 (H s')). by destruct r as [?|[]|].
Qed.

Lemma test_parser_at_frame parser_path pdf_path expected_df s :
  requests (snd (test_parser_at W parser_path pdf_path expected_df s)) = requests s /\
  trace (snd (test_parser_at W parser_path pdf_path expected_df s)) = trace s.
Proof.
  unfold test_parser_at, try_except, bind.
  pose proof (run_parse_frame parser_path pdf_path s) as H1.
  destruct (run_parse W parser_path pdf_path s) as [[v|[e|n r|n|c| |n]|] s1];
    cbn [fst snd] in *; try done.
  destruct (compare_pure expected_df v s1) as [r H]. rewrite (proj1 (H s1)).
  destruct (H s1) as [_ Hr]. by destruct r as [?|[]|].
Qed.

(** [test_parser] returns what [test_parser_at] returns, and records it. *)
Lemma test_parser_unfold parser_path pdf_path expected_df s :
  test_parser W parser_path pdf_path expected_df s =
  let verdict :=
    match fst (test_parser_at W parser_path pdf_path expected_df s) with
    | Ok v => Ok (snd v)
    | Raise x => Raise x
    | Hang => Hang
    end in
  (verdict,
   MkState (fs (snd (test_parser_at W parser_path pdf_path expected_df s)))
     (requests s) (trace s ++ [Validated parser_path verdict])).
Proof.
  unfold test_parser.
  destruct (test_parser_at_frame parser_path pdf_path expected_df s) as [H1 H2].
  destruct (test_parser_at W parser_path pdf_path expected_df s) as [r s']; cbn [fst snd] in *.
  by rewrite H1, H2.
Qed.

Lemma test_parser_frame parser_path pdf_path expected_df s :
  requests (snd (test_parser W parser_path pdf_path expected_df s)) = requests s /\
  trace (snd (test_parser W parser_path pdf_path expected_df s))
  = trace s ++ [Validated parser_path
                  (fst (test_parser W parser_path pdf_path expected_df s))].
Proof. by rewrite test_parser_unfold. Qed.

Lemma returns_at_intro parser_path pdf_path expected_df s b v :
  fst (test_parser_at W parser_path pdf_path expected_df s) = Ok (b, v) ->
  returns_at W parser_path pdf_path expected_df s b v.
Proof. intros H. split; [done|]. rewrite test_parser_unfold. cbn [fst]. by rewrite H. Qed.

Lemma run_parse_returns parser_path pdf_path s v :
  candidate_returns W s parser_path pdf_path v <->
  fst (run_parse W parser_path pdf_path s) = Ok v.
Proof.
  unfold candidate_returns, run_parse. run_monad. split.
  - intros (m & f & Hm & Hf & Hv). rewrite Hm. cbn [fst snd fs]. by rewrite Hf.
  - destruct (fst (exec_module W (requests s) (fs s) parser_path)) as [m|r|] eqn:Hm;
      [|done..].
    destruct (parse m) as [f|] eqn:Hf; [|done]. cbn [fst snd fs].
    intros H. by exists m, f.
Qed.

(** What the harness returns, from how loading and calling end. *)
Lemma test_parser_at_fst parser_path pdf_path expected_df s :
  fst (test_parser_at W parser_path pdf_path expected_df s) =
  match fst (run_parse W parser_path pdf_path s) with
  | Ok v => judge W expected_df v s
  | Raise (Exception e) => Ok (ExecutionError, (false, Some (execution_error_text e)))
  | Raise (Unprintable _ r) => Raise r
  | Raise (Speechless _) => Hang
  | Raise r => Raise r
  | Hang => Hang
  end.
Proof.
  unfold test_parser_at, try_except at 1, bind.
  destruct (run_parse W parser_path pdf_path s) as [[v|[e|n r|n|c| |n]|] s1];
    cbn [fst snd]; try done.
  rewrite (judge_fst expected_df v s s1). unfold judge, try_except.
  by destruct (compare W expected_df v s1) as [[?|[]|] ?].
Qed.

Lemma test_parser_at_returns parser_path pdf_path expected_df s v :
  candidate_returns W s parser_path pdf_path v ->
  fst (test_parser_at W parser_path pdf_path expected_df s) = judge W expected_df v s.
Proof. intros H%run_parse_returns. by rewrite test_parser_at_fst, H. Qed.

(** The stages of the comparison, one lemma each. *)


Lemma stage_columns parser_path pdf_path expected_df actual_df s :
  candidate_returns W s parser_path pdf_path (DF actual_df) ->
  same_labels (columns actual_df) (columns expected_df) = false ->
  returns_at W parser_path pdf_path expected_df s
    ColumnMismatch (false, Some (column_mismatch_text W expected_df actual_df)).
Proof.
  intros H Hc. apply returns_at_intro. rewrite (test_parser_at_returns _ _ _ _ _ H).
  unfold judge, try_except, compare. by rewrite Hc.
Qed.

Lemma stage_shape parser_path pdf_path expected_df actual_df s :
  candidate_returns W s parser_path pdf_path (DF actual_df) ->
  same_labels (columns actual_df) (columns expected_df) = true ->
  shape actual_df <> shape expected_df ->
  returns_at W parser_path pdf_path expected_df s
    ShapeMismatch (false, Some (shape_mismatch_text expected_df actual_df)).
Proof.
  intros H Hc Hs. apply returns_at_intro. rewrite (test_parser_at_returns _ _ _ _ _ H).
  unfold judge, try_except, compare.
  by rewrite Hc, bool_decide_eq_false_2.
Qed.

Lemma stage_equal parser_path pdf_path expected_df actual_df s :
  candidate_returns W s parser_path pdf_path (DF actual_df) ->
  same_labels (columns actual_df) (columns expected_df) = true ->
  shape actual_df = shape expected_df ->
  equals W expected_df actual_df = true ->
  returns_at W parser_path pdf_path expected_df s PerfectMatch (true, None).
Proof.
  intros H Hc Hs He. apply returns_at_intro. rewrite (test_parser_at_returns _ _ _ _ _ H).
  unfold judge, try_except, compare.
  by rewrite Hc, (bool_decide_eq_true_2 _ Hs), He.
Qed.

Lemma iloc0_rows df :
  index df <> [] ->
  iloc0 W df = Ok (zip (columns df) (map (fun c => default NaN (s_values c !! 0%nat)) (data df))).
Proof. unfold iloc0. by destruct (index df). Qed.

Lemma stage_values parser_path pdf_path expected_df actual_df s :
  candidate_returns W s parser_path pdf_path (DF actual_df) ->
  same_labels (columns actual_df) (columns expected_df) = true ->
  shape actual_df = shape expected_df ->
  equals W expected_df actual_df = false ->
  index expected_df <> [] ->
  exists expected_row actual_row,
    returns_at W parser_path pdf_path expected_df s NotEqual
      (false, Some (not_equal_text W expected_df actual_df expected_row actual_row)).
Proof.
  intros H Hc Hs Hne Hrows.
  assert (index actual_df <> []) as Hrows'.
  { intros E. injection Hs as Hl _. rewrite E in Hl.
    by destruct (index expected_df). }
  eexists _, _. apply returns_at_intro. rewrite (test_parser_at_returns _ _ _ _ _ H).
  unfold judge, try_except, compare, bind, of_result, ret.
  rewrite Hc, bool_decide_eq_true_2, Hne by done. cbn [negb].
  rewrite !iloc0_rows by done. done.
Qed.

(** A comparison that cannot show its first rows ends in the handler. *)
Lemma stage_values_empty parser_path pdf_path expected_df actual_df s :
  candidate_returns W s parser_path pdf_path (DF actual_df) ->
  same_labels (columns actual_df) (columns expected_df) = true ->
  shape actual_df = shape expected_df ->
  equals W expected_df actual_df = false ->
  index expected_df = [] ->
  returns_at W parser_path pdf_path expected_df s ExecutionError
    (false, Some (execution_error_text
       (raise_here W "IndexError" "single positional indexer is out-of-bounds"))).
Proof.
  intros H Hc Hs Hne Hrows.
  apply returns_at_intro. rewrite (test_parser_at_returns _ _ _ _ _ H).
  unfold judge, try_except, compare, bind, of_result, ret.
  rewrite Hc, bool_decide_eq_true_2, Hne by done. cbn [negb].
  unfold iloc0. by rewrite Hrows.
Qed.

(** The failures of loading and calling, one lemma each. *)

Lemma stage_load parser_path pdf_path expected_df s e :
  fst (exec_module W (requests s) (fs s) parser_path) = Raise (Exception e) ->
  returns_at W parser_path pdf_path expected_df s
    ExecutionError (false, Some (execution_error_text e)).
Proof.
  intros H. apply returns_at_intro. rewrite test_parser_at_fst.
  unfold run_parse. run_monad. by rewrite H.
Qed.

Lemma stage_attribute parser_path pdf_path expected_df s m :
  fst (exec_module W (requests s) (fs s) parser_path) = Ok m -> parse m = None ->
  returns_at W parser_path pdf_path expected_df s
    ExecutionError
    (false, Some (execution_error_text
       (raise_here W "AttributeError" "module 'custom_parser' has no attribute 'parse'"))).
Proof.
  intros H Hp. apply returns_at_intro. rewrite test_parser_at_fst.
  unfold run_parse. run_monad. by rewrite H, Hp.
Qed.

Lemma stage_call parser_path pdf_path expected_df s m f e :
  fst (exec_module W (requests s) (fs s) parser_path) = Ok m -> parse m = Some f ->
  fst (f pdf_path (snd (exec_module W (requests s) (fs s) parser_path)))
    = Raise (Exception e) ->
  returns_at W parser_path pdf_path expected_df s
    ExecutionError (false, Some (execution_error_text e)).
Proof.
  intros H Hp Hf. apply returns_at_intro. rewrite test_parser_at_fst.
  unfold run_parse. run_monad. rewrite H. cbn [fst snd fs]. rewrite Hp.
  cbn [fst snd fs]. by rewrite Hf.
Qed.

(** The verdict on a value returned is a pair: [True] without a text,
    or [False] with a text that is not empty. *)
Lemma judge_cases expected_df v s :
  (exists b, judge W expected_df v s = Ok (b, (true, None))) \/
  (exists b msg, msg <> [] /\ judge W expected_df v s = Ok (b, (false, Some msg))).
Proof.
  unfold judge, try_except.
  destruct (compare_pure expected_df v s) as [r H].
  destruct (H s) as [-> Hr].
  destruct r as [[b [[] [msg|]]]|[e| | | | |]|]; try done.
  - left. by exists b.
  - right. by exists b, msg.
  - right. eexists _, _. split; [|done]. apply execution_error_text_nonempty.
Qed.

(** [test_parser] returns a pair exactly when loading and calling
    return or raise an [Exception] that can be printed; otherwise it ends
    as they do. *)
Lemma test_parser_at_cases parser_path pdf_path expected_df s :
  (caught (fst (run_parse W parser_path pdf_path s)) = true /\
   ((exists b, fst (test_parser_at W parser_path pdf_path expected_df s)
               = Ok (b, (true, None))) \/
    (exists b msg, msg <> [] /\
       fst (test_parser_at W parser_path pdf_path expected_df s)
       = Ok (b, (false, Some msg))))) \/
  (caught (fst (run_parse W parser_path pdf_path s)) = false /\
   forall v, fst (test_parser_at W parser_path pdf_path expected_df s) <> Ok v).
Proof.
  rewrite test_parser_at_fst.
  destruct (fst (run_parse W parser_path pdf_path s)) as [v|[e|n r|n|c| |n]|];
    cbn [caught]; try (right; split; done).
  - left. split; [done|]. apply judge_cases.
  - left. split; [done|]. right. eexists _, _.
    split; [|done]. apply execution_error_text_nonempty.
Qed.

End Harness.

Section HarnessClaims.

Variable W : World.

Implicit Types (s : state) (expected_df actual_df : DataFrame).

Lemma cell_in_range df i j x :
  well_formed df -> cell df i j = Some x -> index df <> [].
Proof.
  intros [_ Hwf] Hcell. unfold cell in Hcell.
  destruct (data df !! i) as [c|] eqn:Hc; [|done]. simpl in Hcell.
  rewrite Forall_forall in Hwf.
  specialize (Hwf c (list_elem_of_lookup_2 _ _ _ Hc)).
  apply lookup_lt_Some in Hcell. rewrite Hwf in Hcell.
  destruct (index df); [simpl in Hcell; lia|done].
Qed.

Lemma swapped_labels_differ (l : list scalar) i j x y :
  l !! i = Some x -> l !! j = Some y -> value x <> value y ->
  same_labels (<[i:=y]> (<[j:=x]> l)) l = false.
Proof.
  intros Hi Hj Hxy. unfold same_labels. apply bool_decide_eq_false_2. intros E.
  apply (f_equal (fun vs : list scalar => vs !! i)) in E.
  rewrite !list_lookup_fmap, Hi in E.
  rewrite list_lookup_insert_eq in E.
  - cbn in E. congruence.
  - rewrite length_insert. by apply lookup_lt_Some in Hi.
Qed.

Lemma differing_cell_unequal (a b : DataFrame) i j x y :
  cell a i j = Some x -> cell b i j = Some y -> value x <> value y ->
  equal_by_value a b = false.
Proof.
  intros Hx Hy Hxy. destruct (equal_by_value a b) eqn:E; [|done].
  by destruct (Hxy (equal_by_value_cell a b i j x y E Hx Hy)).
Qed.

(** Only a table with the reference's column labels and shape that
    [equals] takes for the reference leaves by the perfect-match
    return. *)
Lemma judge_accepts expected_df actual_df s b :
  judge W expected_df (DF actual_df) s = Ok (b, (true, None)) ->
  b = PerfectMatch /\
  same_labels (columns actual_df) (columns expected_df) = true /\
  shape actual_df = shape expected_df /\
  equals W expected_df actual_df = true.
Proof.
  unfold judge, compare. run_monad.
  destruct (same_labels (columns actual_df) (columns expected_df)); cbn [negb fst]; [|done].
  destruct (bool_decide (shape actual_df = shape expected_df)) eqn:Hs; cbn [negb fst]; [|done].
  apply bool_decide_eq_true_1 in Hs.
  destruct (equals W expected_df actual_df); [by intros [= <-]|].
  unfold iloc0. destruct (index expected_df); [done|].
  by destruct (index actual_df).
Qed.

(** A returned table leaves by the perfect-match return exactly when it
    passes the three comparisons. *)
Lemma accepted_iff parser_path pdf_path expected_df actual_df s :
  candidate_returns W s parser_path pdf_path (DF actual_df) ->
  returns_at W parser_path pdf_path expected_df s PerfectMatch (true, None) <->
  same_labels (columns actual_df) (columns expected_df) = true /\
  shape actual_df = shape expected_df /\
  equals W expected_df actual_df = true.
Proof.
  intros Hret. split.
  - intros [H _]. rewrite (test_parser_at_returns _ _ _ _ _ _ Hret) in H.
    by apply judge_accepts in H as [_ H].
  - intros (Hc & Hs & He). by apply (stage_equal W _ _ _ actual_df).
Qed.

(** Where [equals] decides by value, the first two comparisons add
    nothing to it. *)
Lemma accepted_by_value parser_path pdf_path expected_df actual_df s :
  candidate_returns W s parser_path pdf_path (DF actual_df) ->
  decided_by_value W expected_df actual_df ->
  returns_at W parser_path pdf_path expected_df s PerfectMatch (true, None) <->
  equal_by_value expected_df actual_df = true.
Proof.
  intros Hret Hv. rewrite (accepted_iff _ _ _ _ _ Hret), Hv. split.
  - by intros (_ & _ & H).
  - intros H. split; [by apply equal_by_value_columns|].
    split; [by apply equal_by_value_shape|done].
Qed.

(** C1, as amended: a returned table leaves by the perfect-match
    return, accepted and with no error text, exactly when its column
    labels are the reference's as lists, its shape is the reference's,
    and [equals] takes it for the reference.  Where [equals] decides by
    value, a table identical to the reference, row labels included, is
    accepted; a table is accepted exactly when it is equal to the
    reference by value, row labels included; and a table with the
    reference's column labels and shape but one cell of another value is
    rejected through the not-equal return.  A table whose labels are the
    reference's with two labels of different value exchanged is rejected
    through the column-mismatch return; one with another row count is
    rejected through the shape-mismatch return when the labels match and
    through the column-mismatch return when they do not.  Every
    rejection carries a non-empty text. *)
Theorem exact_match_or_failure parser_path pdf_path expected_df actual_df s :
  candidate_returns W s parser_path pdf_path (DF actual_df) ->
  (returns_at W parser_path pdf_path expected_df s PerfectMatch (true, None) <->
     same_labels (columns actual_df) (columns expected_df) = true /\
     shape actual_df = shape expected_df /\
     equals W expected_df actual_df = true) /\
  (decided_by_value W expected_df actual_df ->
     (actual_df = expected_df ->
        returns_at W parser_path pdf_path expected_df s PerfectMatch (true, None)) /\
     (returns_at W parser_path pdf_path expected_df s PerfectMatch (true, None) <->
        equal_by_value expected_df actual_df = true) /\
     (well_formed expected_df ->
      same_labels (columns actual_df) (columns expected_df) = true ->
      shape actual_df = shape expected_df ->
      (exists i j x y, cell expected_df i j = Some x /\ cell actual_df i j = Some y /\
                       value x <> value y) ->
        exists msg, msg <> [] /\
          returns_at W parser_path pdf_path expected_df s NotEqual (false, Some msg))) /\
  ((exists i j x y, columns expected_df !! i = Some x /\ columns expected_df !! j = Some y /\
                    value x <> value y /\
                    columns actual_df = <[i:=y]> (<[j:=x]> (columns expected_df))) ->
     exists msg, msg <> [] /\
       returns_at W parser_path pdf_path expected_df s ColumnMismatch (false, Some msg)) /\
  (length (index actual_df) <> length (index expected_df) ->
     exists msg, msg <> [] /\
       if same_labels (columns actual_df) (columns expected_df)
       then returns_at W parser_path pdf_path expected_df s ShapeMismatch (false, Some msg)
       else returns_at W parser_path pdf_path expected_df s ColumnMismatch (false, Some msg)).
Proof.
  intros Hret. split; [|split; [|split]].
  - by apply accepted_iff.
  - intros Hv. split; [|split].
    + intros ->. apply (accepted_by_value _ _ _ _ _ Hret Hv), equal_by_value_refl.
    + by apply accepted_by_value.
    + intros Hwf Hc Hs (i & j & x & y & Hx & Hy & Hxy).
      destruct (stage_values W parser_path pdf_path expected_df actual_df s)
        as (re & ra & H); try done.
      * rewrite Hv. by eapply differing_cell_unequal.
      * by eapply cell_in_range.
      * eexists. split; [|done]. apply not_equal_text_nonempty.
  - intros (i & j & x & y & Hx & Hy & Hxy & Hc).
    eexists. split; [apply (column_mismatch_text_nonempty W expected_df actual_df)|].
    apply stage_columns; [done|]. rewrite Hc. by eapply swapped_labels_differ.
  - intros Hrows.
    destruct (same_labels (columns actual_df) (columns expected_df)) eqn:Hc.
    + eexists. split; [apply (shape_mismatch_text_nonempty expected_df actual_df)|].
      apply stage_shape; [done..|]. unfold shape. congruence.
    + eexists. split; [apply (column_mismatch_text_nonempty W expected_df actual_df)|].
      by apply stage_columns.
Qed.


(** C7, as amended: a parser that fails to load, one that loads without
    a [parse], and one whose [parse] raises when called with the document
    path are all rejected through the one [except] return, with the text
    built from the exception alone. *)
Theorem load_contract_and_call_failures parser_path pdf_path expected_df s :
  (forall e, fst (exec_module W (requests s) (fs s) parser_path) = Raise (Exception e) ->
     returns_at W parser_path pdf_path expected_df s
       ExecutionError (false, Some (execution_error_text e))) /\
  (forall m, fst (exec_module W (requests s) (fs s) parser_path) = Ok m -> parse m = None ->
     returns_at W parser_path pdf_path expected_df s
       ExecutionError
       (false, Some (execution_error_text
          (raise_here W "AttributeError" "module 'custom_parser' has no attribute 'parse'")))) /\
  (forall m f e,
     fst (exec_module W (requests s) (fs s) parser_path) = Ok m -> parse m = Some f ->
     fst (f pdf_path (snd (exec_module W (requests s) (fs s) parser_path)))
       = Raise (Exception e) ->
     returns_at W parser_path pdf_path expected_df s
       ExecutionError (false, Some (execution_error_text e))).
Proof.
  split; [|split]; intros.
  - by apply stage_load.
  - by eapply stage_attribute.
  - by eapply stage_call.
Qed.


End HarnessClaims.

(** ** The prober and the composer *)

Section Prompt.

Variable W : World.

Lemma peek_pdf_structure_ok pdf_path s :
  exists text, peek_pdf_structure W pdf_path s = (Ok text, s).
Proof.
  unfold peek_pdf_structure, item. run_monad.
  destruct (pdfplumber_open W (fs s) pdf_path) as [e|[|page rest]]; simpl; [by eexists..|].
  destruct (extract_text page) as [e|text]; simpl; [by eexists|].
  destruct (extract_tables page) as [e|[|first_table tables]]; simpl; by eexists.
Qed.

(** C8: the prober returns a text for every path and state and changes
    nothing; when the document cannot be opened, has no page, or its first
    page yields no text or no tables, the text is the explanatory string
    built from the exception. *)
Theorem peek_pdf_structure_never_raises pdf_path s :
  (exists text, peek_pdf_structure W pdf_path s = (Ok text, s)) /\
  (forall e, pdfplumber_open W (fs s) pdf_path = inl e ->
     peek_pdf_structure W pdf_path s = (Ok (lit "Could not analyze PDF: " ++ exc_str e), s)) /\
  (pdfplumber_open W (fs s) pdf_path = inr [] ->
     peek_pdf_structure W pdf_path s =
       (Ok (lit "Could not analyze PDF: " ++ lit "list index out of range"), s)) /\
  (forall page rest e,
     pdfplumber_open W (fs s) pdf_path = inr (page :: rest) ->
     extract_text page = inl e ->
     peek_pdf_structure W pdf_path s = (Ok (lit "Could not analyze PDF: " ++ exc_str e), s)) /\
  (forall page rest text e,
     pdfplumber_open W (fs s) pdf_path = inr (page :: rest) ->
     extract_text page = inr text -> extract_tables page = inl e ->
     peek_pdf_structure W pdf_path s = (Ok (lit "Could not analyze PDF: " ++ exc_str e), s)).
Proof.
  split; [apply peek_pdf_structure_ok|].
  unfold peek_pdf_structure, item. run_monad.
  split; [|split; [|split]].
  - by intros e ->.
  - by intros ->.
  - intros page rest e ->. cbn. by intros ->.
  - intros page rest text e ->. cbn. intros ->. cbn. by intros ->.
Qed.

Lemma build_prompt_state pdf_path csv_path previous_code error_msg attempt s :
  snd (build_prompt W pdf_path csv_path previous_code error_msg attempt s) = s.
Proof.
  unfold build_prompt. run_monad.
  destruct (read_csv W (fs s) csv_path) as [e|expected_df]; simpl; [done|].
  destruct (peek_pdf_structure_ok pdf_path s) as [text H].
  rewrite H. done.
Qed.

Lemma build_prompt_cases pdf_path csv_path previous_code error_msg attempt s :
  (exists prompt,
     build_prompt W pdf_path csv_path previous_code error_msg attempt s = (Ok prompt, s)) \/
  (exists e,
     read_csv W (fs s) csv_path = inl e /\
     build_prompt W pdf_path csv_path previous_code error_msg attempt s
       = (Raise (Exception e), s)).
Proof.
  pose proof (build_prompt_state pdf_path csv_path previous_code error_msg attempt s) as Hs.
  destruct (build_prompt W pdf_path csv_path previous_code error_msg attempt s)
    as [r s'] eqn:E. simpl in Hs. subst s'.
  unfold build_prompt in E. revert E. run_monad.
  destruct (read_csv W (fs s) csv_path) as [e|expected_df]; simpl.
  - intros [= <-]. right. by exists e.
  - destruct (peek_pdf_structure_ok pdf_path s) as [text H].
    rewrite H.
    intros [= <-]. left. by eexists.
Qed.

(** Without previous code, or with empty previous code, the prompt is
    the first prompt. *)
Lemma build_prompt_without_code pdf_path csv_path previous_code error_msg attempt s :
  truthy previous_code = false ->
  build_prompt W pdf_path csv_path previous_code error_msg attempt s =
  build_prompt W pdf_path csv_path None None 1 s.
Proof. intros H. unfold build_prompt. by rewrite H. Qed.

(** With previous code and an error text, both not empty, the prompt
    quotes them. *)
Lemma build_prompt_feedback pdf_path csv_path code err attempt s prompt :
  code <> [] -> err <> [] ->
  fst (build_prompt W pdf_path csv_path (Some code) (Some err) attempt s) = Ok prompt ->
  occurs_in code prompt /\ occurs_in err prompt.
Proof.
  intros Hc He. unfold build_prompt. run_monad.
  destruct (read_csv W (fs s) csv_path) as [e|expected_df]; cbn [lift]; [done|].
  destruct (peek_pdf_structure_ok pdf_path s) as [text H]. rewrite H.
  destruct code as [|c code]; [done|]. destruct err as [|d err]; [done|].
  cbn [truthy andb default fst].
  generalize (task_text W text expected_df). intros task [= <-].
  unfold feedback_text. split.
  - apply occurs_in_app_l, occurs_in_app_r.
    do 7 apply occurs_in_app_r. apply occurs_in_here.
  - apply occurs_in_app_l, occurs_in_app_r.
    do 5 apply occurs_in_app_r. apply occurs_in_here.
Qed.

End Prompt.

(** C9: the composed text is the same for two invocations with the same
    arguments whenever the reference table read from [csv_path], the pages
    opened at [pdf_path] and the renderings of labels, dtypes and tables
    are the same, whatever else differs in the file system, the trace, the
    model or the interpreter; and composing leaves the state as it was. *)
Theorem build_prompt_deterministic W1 W2 pdf_path csv_path previous_code error_msg attempt s1 s2 :
  read_csv W1 (fs s1) csv_path = read_csv W2 (fs s2) csv_path ->
  pdfplumber_open W1 (fs s1) pdf_path = pdfplumber_open W2 (fs s2) pdf_path ->
  repr_labels W1 = repr_labels W2 ->
  repr_dtypes W1 = repr_dtypes W2 ->
  to_string W1 = to_string W2 ->
  fst (build_prompt W1 pdf_path csv_path previous_code error_msg attempt s1) =
  fst (build_prompt W2 pdf_path csv_path previous_code error_msg attempt s2) /\
  snd (build_prompt W1 pdf_path csv_path previous_code error_msg attempt s1) = s1 /\
  snd (build_prompt W2 pdf_path csv_path previous_code error_msg attempt s2) = s2.
Proof.
  intros Hcsv Hpdf Hl Hd Ht. split; [|split; apply build_prompt_state].
  unfold build_prompt, task_text, peek_pdf_structure, item. run_monad.
  rewrite Hcsv, Hpdf, Hl, Hd, Ht.
  destruct (read_csv W2 (fs s2) csv_path) as [e|expected_df]; simpl; [done|].
  destruct (pdfplumber_open W2 (fs s2) pdf_path) as [e|[|page rest]]; simpl; [done..|].
  destruct (extract_text page) as [e|text]; simpl; [done|].
  destruct (extract_tables page) as [e|[|first_table tables]]; simpl; done.
Qed.
(** ** The retry loop *)

Section Loop.

Variable W : World.

Lemma call_llm_unfold prompt s :
  call_llm W prompt s =
  (match generate_content W (requests s) prompt with
   | inr text => Ok text
   | inl _ => Raise (SystemExit 1)
   end,
   MkState (fs s) (S (requests s))
     (trace s ++ [Generated prompt (generate_content W (requests s) prompt)])).
Proof.
  unfold call_llm. run_monad.
  by destruct (generate_content W (requests s) prompt).
Qed.

Lemma save_parser_unfold code bank s :
  save_parser W code bank s =
  match open_error W (fs s) (parser_file bank) with
  | Some e => (Raise (Exception e), s)
  | None =>
      match encode_error W code with
      | Some e =>
          (Raise (Exception e),
           MkState (<[parser_file bank := []]> (fs s)) (requests s) (trace s))
      | None =>
          (Ok (parser_file bank),
           MkState (<[parser_file bank := code]> (fs s)) (requests s)
             (trace s ++ [Persisted (parser_file bank) code]))
      end
  end.
Proof.
  unfold save_parser. run_monad.
  destruct (open_error W (fs s) (parser_file bank)); [done|].
  by destruct (encode_error W code).
Qed.

(** A verdict is [True] without a text or [False] with a text that is
    not empty. *)
Lemma test_parser_verdict_cases parser_path pdf_path expected_df s :
  let v := fst (test_parser W parser_path pdf_path expected_df s) in
  v = Ok (true, None) \/ (exists msg, msg <> [] /\ v = Ok (false, Some msg)) \/
  (exists x, v = Raise x) \/ v = Hang.
Proof.
  rewrite test_parser_unfold. cbn [fst].
  destruct (test_parser_at_cases W parser_path pdf_path expected_df s)
    as [[_ [[b H]|(b & msg & Hm & H)]]|[_ H]].
  - rewrite H. by left.
  - rewrite H. right; left. by exists msg.
  - destruct (fst (test_parser_at W parser_path pdf_path expected_df s)) as [x|x|].
    + by destruct (H x).
    + right; right; left. by exists x.
    + by right; right; right.
Qed.

(** One pass: what it yields and the state it leaves. *)
Lemma one_attempt_run bank pdf_path csv_path expected_df previous_code error_msg attempt s :
  let r := fst (one_attempt W bank pdf_path csv_path expected_df previous_code error_msg attempt s) in
  let s' := snd (one_attempt W bank pdf_path csv_path expected_df previous_code error_msg attempt s) in
  (exists e, read_csv W (fs s) csv_path = inl e /\ r = Raise (Exception e) /\ s' = s) \/
  (exists p e,
     build_prompt W pdf_path csv_path previous_code error_msg attempt s = (Ok p, s) /\
     generate_content W (requests s) p = inl e /\ r = Raise (SystemExit 1) /\
     s' = MkState (fs s) (S (requests s)) (trace s ++ [Generated p (inl e)])) \/
  (exists p a code e,
     build_prompt W pdf_path csv_path previous_code error_msg attempt s = (Ok p, s) /\
     generate_content W (requests s) p = inr a /\ clean_up W a = Ok code /\
     (open_error W (fs s') (parser_file bank) = Some e \/ encode_error W code = Some e) /\
     r = Raise (Exception e) /\
     requests s' = S (requests s) /\ trace s' = trace s ++ [Generated p (inr a)]) \/
  (exists p a code s1 v,
     build_prompt W pdf_path csv_path previous_code error_msg attempt s = (Ok p, s) /\
     generate_content W (requests s) p = inr a /\ clean_up W a = Ok code /\
     s1 = MkState (<[parser_file bank := code]> (fs s)) (S (requests s))
            (trace s ++ [Generated p (inr a); Persisted (parser_file bank) code]) /\
     v = fst (test_parser W (parser_file bank) pdf_path expected_df s1) /\
     r = match v with Ok x => Ok (code, x) | Raise x => Raise x | Hang => Hang end /\
     s' = snd (test_parser W (parser_file bank) pdf_path expected_df s1)).
Proof.
  unfold one_attempt. run_monad.
  destruct (build_prompt_cases W pdf_path csv_path previous_code error_msg attempt s)
    as [[prompt Hp]|(e & He & ->)]; [|left; by exists e].
  rewrite Hp. right. rewrite call_llm_unfold.
  destruct (generate_content W (requests s) prompt) as [e|text] eqn:Ha.
  { left. by eexists _, _. }
  right. destruct (clean_up_total W text) as [code Hcode]. rewrite Hcode.
  rewrite save_parser_unfold. cbn [fst snd trace fs requests].
  destruct (open_error W (fs s) (parser_file bank)) as [e|] eqn:Ho.
  { left. exists prompt, text, code, e. cbn [fst snd fs requests trace]. eauto 10. }
  destruct (encode_error W code) as [e|] eqn:He.
  { left. exists prompt, text, code, e. cbn [fst snd fs requests trace]. eauto 10. }
  right. rewrite <- !app_assoc. cbn [app].
  set (s1 := MkState _ _ _).
  exists prompt, text, code, s1, (fst (test_parser W (parser_file bank) pdf_path expected_df s1)).
  split; [done|]. split; [done|]. split; [done|]. split; [done|]. split; [done|].
  by destruct (test_parser W (parser_file bank) pdf_path expected_df s1) as [[x|x|] s2].
Qed.


(** What a trace of cycles tells. *)

Section Cycles.

Variables (bank csv_path : pystr) (final : filesystem).









End Cycles.



End Loop.

(** ** The claims about the loop, the extraction and the exit status *)

(** C6, as amended: a response that wraps a source text in a block
    fenced with the [python] label, one that wraps it in a block fenced
    without label, and the source text alone all yield the same text, the
    trimmed source;
    prose may come before and after the block.  A response without any
    fence yields itself, trimmed.  The source and the prose before it
    contain no fence and do not end in a backtick; after a labelled block
    no backtick follows at once, and a response with an unlabelled block
    has no labelled fence. *)
Theorem clean_up_three_shapes W pre body post :
  fence_free pre -> fence_free body ->
  (startswith [backtick] post = false ->
     clean_up W (pre ++ python_fence ++ body ++ fence ++ post) = Ok (strip body)) /\
  (contains python_fence (pre ++ fence ++ body ++ fence ++ post) = false ->
     clean_up W (pre ++ fence ++ body ++ fence ++ post) = Ok (strip body)) /\
  clean_up W body = Ok (strip body) /\
  (forall response, contains fence response = false ->
     clean_up W response = Ok (strip response)).
Proof.
  intros Hpre Hbody. split; [|split; [|split]].
  - intros Hpost. by apply clean_up_labelled.
  - intros Hno. by apply clean_up_unlabelled.
  - by apply clean_up_bare, fence_free_contains.
  - apply clean_up_bare.
Qed.

Lemma clean_up_three_shapes_witness :
  clean_up (Demo.world [])
    (Demo.prose_before ++ python_fence ++ Demo.wrapped_source ++ fence ++ Demo.prose_after)
    = Ok (strip Demo.wrapped_source) /\
  clean_up (Demo.world [])
    (Demo.prose_before ++ fence ++ Demo.wrapped_source ++ fence ++ Demo.prose_after)
    = Ok (strip Demo.wrapped_source) /\
  clean_up (Demo.world []) Demo.wrapped_source = Ok (strip Demo.wrapped_source).
Proof.
  destruct (clean_up_three_shapes (Demo.world [])
              Demo.prose_before Demo.wrapped_source Demo.prose_after)
    as (H1 & H2 & H3 & _); [vm_compute; reflexivity..|].
  split; [apply H1; vm_compute; reflexivity|].
  split; [apply H2; vm_compute; reflexivity|exact H3].
Defined.

Section LoopClaims.

Variable W : World.



End LoopClaims.
(** ** The claims on the example world *)

Section Examples.

Import Demo.

Lemma exact_match_or_failure_witness :
  candidate_returns (world []) (with_parser src_good) parser_path pdf_path (DF reference) /\
  decided_by_value (world []) reference reference /\
  returns_at (world []) parser_path pdf_path reference (with_parser src_good)
    PerfectMatch (true, None).
Proof.
  assert (H : candidate_returns (world []) (with_parser src_good)
                parser_path pdf_path (DF reference)).
  { eexists _, _. repeat split; vm_compute; reflexivity. }
  split; [exact H|]. split; [reflexivity|].
  exact (proj1 (proj1 (proj2 (exact_match_or_failure (world []) parser_path pdf_path
                                reference reference (with_parser src_good) H))
                  eq_refl) eq_refl).
Defined.

(** C1 as stated fails: the table a parser returns after dropping a row
    without resetting the index has the reference's column labels, shape,
    values and dtypes, and is rejected. *)
Lemma same_cells_other_row_labels :
  candidate_returns (world []) (with_parser src_relabelled) parser_path pdf_path
    (DF relabelled) /\
  columns relabelled = columns reference /\
  shape relabelled = shape reference /\
  map s_values (data relabelled) = map s_values (data reference) /\
  map s_dtype (data relabelled) = map s_dtype (data reference) /\
  verdict_on src_relabelled <> Ok (true, None).
Proof.
  split; [eexists _, _; repeat split; vm_compute; reflexivity|].
  repeat split; try reflexivity. vm_compute. discriminate.
Qed.

(** Row labels of another kind and the same values are accepted. *)
Example float_row_labels_accepted :
  candidate_returns (world []) (with_parser src_float_labelled) parser_path pdf_path
    (DF float_labelled) /\
  float_labelled <> reference /\
  verdict_on src_float_labelled = Ok (true, None).
Proof.
  split; [eexists _, _; repeat split; vm_compute; reflexivity|].
  split; [discriminate|]. vm_compute. reflexivity.
Qed.


Lemma load_contract_and_call_failures_witness :
  returns_at (world []) parser_path pdf_path reference (with_parser src_syntax)
    ExecutionError (false, Some (execution_error_text bad_syntax)).
Proof.
  refine (proj1 (load_contract_and_call_failures (world []) parser_path pdf_path
                   reference (with_parser src_syntax)) bad_syntax _).
  vm_compute. reflexivity.
Defined.

(** C7 as stated fails: a parser that does not load, one that has no
    [parse] and one whose [parse] raises are rejected through the same
    [return] statement. *)
Lemma load_contract_and_runtime_one_kind :
  ~ (kind_of src_syntax <> kind_of [] /\
     kind_of [] <> kind_of src_raises /\
     kind_of src_syntax <> kind_of src_raises).
Proof. intros [H _]. apply H. vm_compute. reflexivity. Qed.

(** The same exception raised while loading and while running gives the
    same verdict. *)
Lemma load_and_runtime_same_verdict :
  verdict_on src_load_raises = verdict_on src_raises.
Proof. vm_compute. reflexivity. Qed.



(** So do a parser that raises [KeyboardInterrupt] and one that raises
    an exception whose [__str__] raises it; and with a parser that loops
    [test_parser] never returns. *)
Example other_parsers_without_pair :
  verdict_on src_interrupts = Raise KeyboardInterrupt /\
  verdict_on src_unprintable = Raise KeyboardInterrupt /\
  verdict_on src_loops = Hang.
Proof. repeat split; vm_compute; reflexivity. Qed.

Lemma peek_pdf_structure_never_raises_witness :
  peek_pdf_structure (world []) (pdf_file (lit "sbi")) start =
  (Ok (lit "Could not analyze PDF: [Errno 2] No such file or directory"), start).
Proof.
  refine (proj1 (proj2 (peek_pdf_structure_never_raises (world [])
                          (pdf_file (lit "sbi")) start)) missing_file _).
  vm_compute. reflexivity.
Defined.

Lemma build_prompt_deterministic_witness :
  fst (build_prompt (world []) pdf_path csv_path (Some src_none)
         (Some (lit "Shape mismatch!")) 2 start) =
  fst (build_prompt (world [src_good]) pdf_path csv_path (Some src_none)
         (Some (lit "Shape mismatch!")) 2 (with_parser src_good)).
Proof.
  refine (proj1 (build_prompt_deterministic (world []) (world [src_good])
                   pdf_path csv_path (Some src_none)
                   (Some (lit "Shape mismatch!")) 2 start (with_parser src_good)
                   _ _ eq_refl eq_refl eq_refl)).
  - vm_compute. reflexivity.
  - vm_compute. reflexivity.
Defined.

(** C5 fails on the code: after a candidate that is empty once the fences
    are removed, the second prompt is the first prompt again, and the
    error text of the first attempt is not in it. *)
Theorem feedback_lost_after_empty_candidate :
  let evs := trace (snd (main (world [empty_block; empty_block]) (args bank 2) start)) in
  exists p e,
    prompts evs = [p; p] /\
    stored evs = [(parser_path, []); (parser_path, [])] /\
    errors evs = [e; e] /\
    e <> [] /\ ~ occurs_in e p.
Proof.
  intros evs.
  exists (List.hd [] (prompts evs)), (List.hd [] (errors evs)).
  split; [vm_compute; reflexivity|].
  split; [vm_compute; reflexivity|].
  split; [vm_compute; reflexivity|].
  split; [vm_compute; discriminate|].
  intros H%contains_occurs_in. vm_compute in H. discriminate.
Qed.

(** C6 as stated fails: a block labelled [py] keeps its label in the
    text extracted, and one labelled [python3] the end of its label,
    which the block without label and the bare source do not have. *)
Lemma other_label_stays_in_code :
  clean_up (world []) py_block = Ok (lit "py
x = 1") /\
  clean_up (world []) python3_block = Ok (lit "3
x = 1") /\
  clean_up (world []) plain_block = Ok (lit "x = 1") /\
  clean_up (world []) short_source = Ok (lit "x = 1") /\
  clean_up (world []) py_block <> clean_up (world []) plain_block.
Proof. repeat split; [vm_compute; reflexivity..|vm_compute; discriminate]. Qed.


(** A compiled module that is out of date is what the validation
    runs: the loop then rejects a parser that returns the reference, and
    leaves it in the parser file. *)
Example stale_module_is_validated :
  fst (agent_loop (stale_world [src_none_long; src_good]) bank 2 start) = Ok false /\
  fs (snd (agent_loop (stale_world [src_none_long; src_good]) bank 2 start)) !! parser_path
  = Some src_good /\
  verdict_on src_good = Ok (true, None).
Proof. repeat split; vm_compute; reflexivity. Qed.




(** So does [--help]: argparse prints the help and ends the process with
    status 0 before anything is attempted. *)
Example help_exits_zero :
  main (world [src_good]) [lit "--help"] start = (Exit 0, start).
Proof. reflexivity. Qed.

End Examples.

(** ** More on splitting, trimming and the fence-stripping step *)

Section MoreStrings.

Implicit Types (p s t sep cur : pystr).

Lemma occurs_in_trans x y z : occurs_in x y -> occurs_in y z -> occurs_in x z.
Proof.
  intros (a & b & ->) (c & d & ->). exists (c ++ a), (b ++ d).
  by rewrite <- !app_assoc.
Qed.

Lemma startswith_extend p s t : startswith p s = true -> startswith p (s ++ t) = true.
Proof.
  intros [u ->]%startswith_inv. rewrite <- app_assoc. apply startswith_app.
Qed.

Lemma split_from_nonempty sep s cur k : split_from sep s cur k <> [].
Proof.
  revert cur k. induction s as [|c s IH]; intros cur k; cbn [split_from]; [done|].
  destruct k; [|apply IH]. destruct (startswith sep (c :: s)); [done|apply IH].
Qed.

Lemma str_join_cons sep x l : l <> [] -> str_join sep (x :: l) = x ++ sep ++ str_join sep l.
Proof. by destruct l. Qed.

Lemma split_from_join sep s cur :
  sep <> [] -> str_join sep (split_from sep s cur 0) = rev cur ++ s.
Proof.
  intros Hsep. remember (length s) as n eqn:Hn. revert s cur Hn.
  induction n as [n IH] using lt_wf_ind. intros s cur Hn.
  destruct s as [|c s].
  { cbn. by rewrite app_nil_r. }
  destruct (startswith sep (c :: s)) eqn:E.
  - apply startswith_inv in E as [t Ht].
    rewrite Ht, split_from_sep by done.
    rewrite str_join_cons by apply split_from_nonempty.
    rewrite (IH (length t)) with (cur := []); [done| |done].
    subst n. rewrite Ht, length_app. destruct sep; [done|]. simpl. lia.
  - cbn [split_from]. rewrite E.
    rewrite (IH (length s)); [|subst n; simpl; lia|done].
    cbn [rev]. by rewrite <- app_assoc.
Qed.

(** Round trip: joining the pieces of a split with the separator gives the
    string back. *)
Theorem split_join sep s : sep <> [] -> str_join sep (split sep s) = s.
Proof. intros Hsep. unfold split. by rewrite split_from_join. Qed.

Lemma split_join_witness :
  str_join fence (split fence Demo.empty_block) = Demo.empty_block.
Proof. apply split_join. discriminate. Defined.

(** Every piece of a split is part of the string. *)
Lemma split_from_pieces sep s cur k x :
  k = 0%nat \/ cur = [] ->
  x ∈ split_from sep s cur k -> occurs_in x (rev cur ++ s).
Proof.
  revert cur k. induction s as [|c s IH]; intros cur k Hk; cbn [split_from].
  - intros ->%list_elem_of_singleton. rewrite app_nil_r. exists [], []. by rewrite app_nil_r.
  - destruct k as [|k].
    + destruct (startswith sep (c :: s)).
      * intros [->|Hx]%elem_of_cons.
        -- apply occurs_in_here.
        -- apply (IH [] _ (or_intror eq_refl)) in Hx.
           apply occurs_in_app_r. change (c :: s) with ([c] ++ s).
           by apply occurs_in_app_r.
      * intros Hx. apply (IH (c :: cur) _ (or_introl eq_refl)) in Hx.
        cbn [rev] in Hx. by rewrite <- app_assoc in Hx.
    + destruct Hk as [?| ->]; [done|]. intros Hx.
      apply (IH [] _ (or_intror eq_refl)) in Hx.
      change (rev [] ++ c :: s) with ([c] ++ s). by apply occurs_in_app_r.
Qed.

Lemma split_pieces_occur sep s x : x ∈ split sep s -> occurs_in x s.
Proof. intros H. by apply (split_from_pieces sep s [] 0%nat x (or_introl eq_refl)). Qed.

(** The first piece of a split holds no separator. *)

Lemma none_begins_contains sep a t :
  sep <> [] -> none_begins sep a t = true -> contains sep a = false.
Proof.
  intros Hsep. induction a as [|c a IH]; cbn [none_begins contains].
  - intros _. destruct sep; [done|]. done.
  - intros [H1 H2]%andb_true_iff. rewrite IH by done.
    apply negb_true_iff in H1. rewrite orb_false_r.
    destruct (startswith sep (c :: a)) eqn:E; [|done].
    by rewrite (startswith_extend _ _ t E) in H1.
Qed.

Lemma none_begins_snoc sep a c t :
  none_begins sep (a ++ [c]) t =
  none_begins sep a (c :: t) && negb (startswith sep (c :: t)).
Proof.
  induction a as [|x a IH]; cbn [app none_begins].
  - by rewrite andb_true_r.
  - rewrite IH, andb_assoc. do 2 f_equal.
    by rewrite <- app_assoc.
Qed.

Lemma split_from_first_clean sep s cur :
  sep <> [] -> none_begins sep (rev cur) s = true ->
  exists y rest,
    split_from sep s cur 0 = (rev cur ++ y) :: rest /\
    contains sep (rev cur ++ y) = false.
Proof.
  intros Hsep. revert cur. induction s as [|c s IH]; intros cur H; cbn [split_from].
  - exists [], []. rewrite app_nil_r. split; [done|]. by eapply none_begins_contains.
  - destruct (startswith sep (c :: s)) eqn:E.
    + eexists [], _. rewrite app_nil_r. split; [done|]. by eapply none_begins_contains.
    + destruct (IH (c :: cur)) as (y & rest & -> & Hy).
      { cbn [rev]. by rewrite none_begins_snoc, H, E. }
      exists (c :: y), rest. cbn [rev] in *. rewrite <- app_assoc in *. done.
Qed.

Lemma split_first_clean sep s :
  sep <> [] -> exists y rest, split sep s = y :: rest /\ contains sep y = false.
Proof.
  intros Hsep. destruct (split_from_first_clean sep s [] Hsep eq_refl) as (y & rest & H & Hy).
  by exists y, rest.
Qed.

(** Trimming. *)

Lemma lstrip_suffix s : exists pre, s = pre ++ lstrip s.
Proof.
  induction s as [|c s [pre IH]]; cbn [lstrip]; [by exists []|].
  destruct (isspace c); [|by exists []].
  exists (c :: pre). by rewrite IH at 1.
Qed.

Lemma lstrip_idem s : lstrip (lstrip s) = lstrip s.
Proof.
  induction s as [|c s IH]; cbn [lstrip]; [done|].
  destruct (isspace c) eqn:E; [done|]. cbn [lstrip]. by rewrite E.
Qed.

Lemma lstrip_head c s t : lstrip s = c :: t -> isspace c = false.
Proof.
  induction s as [|d s IH]; cbn [lstrip]; [done|].
  destruct (isspace d) eqn:E; [done|]. by intros [= <- _].
Qed.

Lemma strip_prefix s : exists post, lstrip s = strip s ++ post.
Proof.
  unfold strip. destruct (lstrip_suffix (rev (lstrip s))) as [pre H].
  exists (rev pre). rewrite <- rev_app_distr, <- H. by rewrite rev_involutive.
Qed.

Lemma strip_occurs s : occurs_in (strip s) s.
Proof.
  destruct (lstrip_suffix s) as [pre H], (strip_prefix s) as [post H'].
  exists pre, post. by rewrite <- H', <- H.
Qed.

Lemma strip_idem s : strip (strip s) = strip s.
Proof.
  assert (lstrip (strip s) = strip s) as H1.
  { destruct (strip_prefix s) as [post H].
    destruct (strip s) as [|c u] eqn:E; [done|].
    cbn [lstrip]. by rewrite (lstrip_head c (lstrip s) (u ++ post))
      by by rewrite lstrip_idem. }
  unfold strip at 1. rewrite H1. unfold strip.
  by rewrite rev_involutive, lstrip_idem.
Qed.

End MoreStrings.

Section MoreCleanUp.

Variable W : World.

Lemma item_elem {A} (l : list A) i x : item W l i = Ok x -> x ∈ l.
Proof.
  unfold item. destruct (l !! i) eqn:E; [|done].
  intros [= <-]. by eapply list_elem_of_lookup_2.
Qed.

(** What is extracted is the trimmed first piece, before any fence, of
    some part of the response. *)
Lemma clean_up_inner r code :
  clean_up W r = Ok code ->
  exists inner, code = strip inner /\ occurs_in inner r /\ contains fence inner = false.
Proof.
  unfold clean_up.
  assert (Hbranch : forall sep, sep <> [] ->
            match item W (split sep r) 1 with
            | Ok after =>
                match item W (split fence after) 0 with
                | Ok inner => Ok (strip inner)
                | other => other
                end
            | other => other
            end = Ok code ->
            exists inner, code = strip inner /\ occurs_in inner r /\
                          contains fence inner = false).
  { intros sep Hsep. destruct (item W (split sep r) 1) as [after| |] eqn:E1; [|done..].
    destruct (split_first_clean fence after ltac:(done)) as (y & rest & Hs & Hy).
    rewrite Hs, item_first. intros [= <-]. exists y. split; [done|]. split; [|done].
    apply item_elem, split_pieces_occur in E1.
    eapply occurs_in_trans; [|exact E1].
    apply (split_pieces_occur fence). rewrite Hs. by left. }
  destruct (contains python_fence r); [by apply Hbranch|].
  destruct (contains fence r) eqn:E; [by apply Hbranch|].
  intros [= <-]. exists r. split; [done|]. split; [|done].
  exists [], []. by rewrite app_nil_r.
Qed.

(** X1: removing the fences never raises; what it yields is a
    contiguous part of the response and has no whitespace at either end. *)
Theorem clean_up_yields_part r :
  exists code, clean_up W r = Ok code /\ occurs_in code r /\ strip code = code.
Proof.
  destruct (clean_up_total W r) as [code H]. exists code. split; [done|].
  destruct (clean_up_inner r code H) as (inner & -> & Hin & _). split.
  - eapply occurs_in_trans; [apply strip_occurs|done].
  - apply strip_idem.
Qed.

(** X2: the code extracted holds no fence, so that removing the fences
    once more changes nothing. *)
Theorem clean_up_idempotent r code :
  clean_up W r = Ok code ->
  contains fence code = false /\ clean_up W code = Ok code.
Proof.
  intros H. destruct (clean_up_inner r code H) as (inner & -> & _ & Hf).
  assert (contains fence (strip inner) = false) as Hs.
  { destruct (contains fence (strip inner)) eqn:E; [|done].
    apply contains_occurs_in in E.
    pose proof (occurs_in_trans _ _ _ E (strip_occurs inner)) as E'.
    apply contains_occurs_in in E'. congruence. }
  split; [done|]. rewrite clean_up_bare by done. by rewrite strip_idem.
Qed.

End MoreCleanUp.

Lemma clean_up_idempotent_witness :
  clean_up (Demo.world [])
    (Demo.prose_before ++ python_fence ++ Demo.wrapped_source ++ fence ++ Demo.prose_after)
  = Ok (strip Demo.wrapped_source) /\
  clean_up (Demo.world []) (strip Demo.wrapped_source) = Ok (strip Demo.wrapped_source).
Proof.
  assert (H : clean_up (Demo.world [])
                (Demo.prose_before ++ python_fence ++ Demo.wrapped_source ++ fence
                 ++ Demo.prose_after) = Ok (strip Demo.wrapped_source))
    by (vm_compute; reflexivity).
  split; [exact H|].
  exact (proj2 (clean_up_idempotent (Demo.world []) _ _ H)).
Defined.
(** ** More on the harness, the composer and the prober *)

Section MoreHarness.

Variable W : World.

Implicit Types (s : state) (expected_df actual_df : DataFrame).

(** X3: for a returned table the stages decide in this order: column
    labels that differ, column mismatch; else another shape, shape
    mismatch; else tables that [equals] takes for equal, success; else a
    report of the first rows, unless the tables have no row at all: then
    the report cannot be written and the verdict is the execution error
    of an [IndexError]. *)
Theorem harness_decides_in_order parser_path pdf_path expected_df actual_df s :
  candidate_returns W s parser_path pdf_path (DF actual_df) ->
  if same_labels (columns actual_df) (columns expected_df) then
    if decide (shape actual_df = shape expected_df) then
      if equals W expected_df actual_df then
        returns_at W parser_path pdf_path expected_df s PerfectMatch (true, None)
      else if decide (index expected_df = []) then
        returns_at W parser_path pdf_path expected_df s ExecutionError
          (false, Some (execution_error_text
             (raise_here W "IndexError" "single positional indexer is out-of-bounds")))
      else
        exists expected_row actual_row,
          returns_at W parser_path pdf_path expected_df s NotEqual
            (false, Some (not_equal_text W expected_df actual_df expected_row actual_row))
    else
      returns_at W parser_path pdf_path expected_df s ShapeMismatch
        (false, Some (shape_mismatch_text expected_df actual_df))
  else
    returns_at W parser_path pdf_path expected_df s ColumnMismatch
      (false, Some (column_mismatch_text W expected_df actual_df)).
Proof.
  intros H.
  destruct (same_labels (columns actual_df) (columns expected_df)) eqn:Hc;
    [|by apply stage_columns].
  destruct (decide (shape actual_df = shape expected_df)) as [Hs|Hs];
    [|by apply stage_shape].
  destruct (equals W expected_df actual_df) eqn:He;
    [by apply (stage_equal W _ _ _ actual_df)|].
  destruct (decide (index expected_df = [])) as [Hi|Hi].
  - by apply (stage_values_empty W _ _ _ actual_df).
  - by apply stage_values.
Qed.

(** The harness accepts exactly the parsers that return a table with
    the reference's column labels and shape that [equals] takes for the
    reference. *)
Lemma test_parser_accepts parser_path pdf_path expected_df s :
  fst (test_parser W parser_path pdf_path expected_df s) = Ok (true, None) <->
  exists actual_df,
    candidate_returns W s parser_path pdf_path (DF actual_df) /\
    same_labels (columns actual_df) (columns expected_df) = true /\
    shape actual_df = shape expected_df /\
    equals W expected_df actual_df = true.
Proof.
  split.
  - rewrite test_parser_unfold. cbn [fst]. rewrite test_parser_at_fst.
    destruct (fst (run_parse W parser_path pdf_path s)) as [v|[e|n r|n|c| |n]|] eqn:E;
      try done.
    destruct (judge W expected_df v s) as [[b [success msg]]|x|] eqn:Hj; [|done..].
    cbn [snd]. intros [= -> ->].
    destruct v as [actual_df|t].
    + apply judge_accepts in Hj as [_ Hj]. exists actual_df.
      split; [by apply run_parse_returns|done].
    + done.
  - intros (actual_df & H & Hc & Hs & He).
    by destruct (stage_equal W _ _ _ _ _ H Hc Hs He).
Qed.

End MoreHarness.

Lemma harness_decides_in_order_witness :
  returns_at empty_table_world Demo.parser_path Demo.pdf_path empty_object
    (Demo.with_parser [])
    ExecutionError
    (false, Some (execution_error_text
       (raise_here empty_table_world "IndexError"
          "single positional indexer is out-of-bounds"))).
Proof.
  refine (harness_decides_in_order empty_table_world Demo.parser_path Demo.pdf_path
            empty_object empty_int (Demo.with_parser []) _).
  eexists _, _. repeat split; vm_compute; reflexivity.
Defined.

Section MorePrompt.

Variable W : World.

(** X4: composing fails exactly when the reference cannot be read, with
    the exception of [read_csv] and whatever the state of the document;
    and when the reference can be read, all prompts composed in one state
    share the text before the feedback and end in the same closing text,
    the feedback being inserted only when both the previous code and the
    error text are non-empty. *)
Theorem build_prompt_shape pdf_path csv_path s :
  (forall e, read_csv W (fs s) csv_path = inl e ->
     forall previous_code error_msg attempt,
       build_prompt W pdf_path csv_path previous_code error_msg attempt s
       = (Raise (Exception e), s)) /\
  (forall expected_df, read_csv W (fs s) csv_path = inr expected_df ->
     exists task,
       forall previous_code error_msg attempt,
         build_prompt W pdf_path csv_path previous_code error_msg attempt s =
         (Ok (task ++
              (if truthy previous_code && truthy error_msg
               then feedback_text attempt (default [] error_msg) (default [] previous_code)
               else []) ++ closing_text), s)).
Proof.
  split.
  - intros e He previous_code error_msg attempt.
    unfold build_prompt. run_monad. by rewrite He.
  - intros expected_df He.
    destruct (peek_pdf_structure_ok W pdf_path s) as [text H].
    exists (task_text W text expected_df). intros previous_code error_msg attempt.
    unfold build_prompt. run_monad. rewrite He. cbn [lift]. rewrite H.
    destruct (truthy previous_code && truthy error_msg).
    + by rewrite <- app_assoc.
    + done.
Qed.

End MorePrompt.

Lemma build_prompt_shape_witness :
  exists task, forall previous_code error_msg attempt,
    build_prompt (Demo.world []) Demo.pdf_path Demo.csv_path
      previous_code error_msg attempt Demo.start =
    (Ok (task ++
         (if truthy previous_code && truthy error_msg
          then feedback_text attempt (default [] error_msg) (default [] previous_code)
          else []) ++ closing_text), Demo.start).
Proof.
  refine (proj2 (build_prompt_shape (Demo.world []) Demo.pdf_path Demo.csv_path
                   Demo.start) Demo.reference _).
  vm_compute. reflexivity.
Defined.

(** X5: what the prober returns for a document that opens depends only
    on the number of pages, the first 500 code points of the first page's
    text, the number of tables found on that page and the number of rows
    of the first of them. *)
Theorem peek_shows_only W1 W2 path1 path2 s1 s2 pages1 pages2 :
  pdfplumber_open W1 (fs s1) path1 = inr pages1 ->
  pdfplumber_open W2 (fs s2) path2 = inr pages2 ->
  shown pages1 = shown pages2 ->
  fst (peek_pdf_structure W1 path1 s1) = fst (peek_pdf_structure W2 path2 s2).
Proof.
  intros H1 H2 Hshown. unfold peek_pdf_structure, item. run_monad.
  rewrite H1, H2. cbn [lift]. unfold shown in Hshown.
  destruct pages1 as [|page1 rest1], pages2 as [|page2 rest2]; try done.
  injection Hshown as Hlen Htext Htables. cbn [lookup list_lookup fst].
  destruct (extract_text page1) as [e1|text1], (extract_text page2) as [e2|text2];
    try done; cbn [lift fst].
  { by injection Htext as ->. }
  injection Htext as Htext.
  destruct (extract_tables page1) as [e1|tables1],
           (extract_tables page2) as [e2|tables2]; try done; cbn [lift fst].
  { by injection Htables as ->. }
  injection Htables as Hn Hrows.
  assert (structure_text (page1 :: rest1) (take 500 text1) tables1 =
          structure_text (page2 :: rest2) (take 500 text2) tables2) as ->.
  { unfold structure_text. cbn [length]. by rewrite Hlen, Htext, Hn. }
  destruct tables1 as [|t1 tables1], tables2 as [|t2 tables2]; try done.
  cbn in Hrows. injection Hrows as Hrows.
  unfold first_table_text. by rewrite Hrows.
Qed.

Lemma peek_shows_only_witness :
  fst (peek_pdf_structure (one_page_world (long_text 98)) Demo.pdf_path Demo.start) =
  fst (peek_pdf_structure (one_page_world (long_text 99)) Demo.pdf_path Demo.start).
Proof.
  refine (peek_shows_only (one_page_world (long_text 98)) (one_page_world (long_text 99))
            Demo.pdf_path Demo.pdf_path Demo.start Demo.start _ _ eq_refl eq_refl _).
  vm_compute. reflexivity.
Defined.
(** ** More on the artifact store and the loop *)

Section ParserFile.

Implicit Types (bank s t : pystr).

Lemma contains_single_app c s t :
  contains [c] (s ++ t) = contains [c] s || contains [c] t.
Proof.
  induction s as [|a s IH]; [by destruct t|].
  cbn [app contains startswith]. rewrite IH.
  rewrite andb_true_r, orb_assoc. by destruct s.
Qed.

(** For a bank name without a slash the parser file is the file of that
    name in the directory [custom_parser]. *)
Lemma parser_file_component bank :
  contains [slash] bank = false ->
  parser_file bank = lit "custom_parser/" ++ bank ++ lit "_parser.py".
Proof.
  intros H. unfold parser_file, posix_parts.
  assert (Hname : contains [slash] (bank ++ lit "_parser.py") = false).
  { by rewrite contains_single_app, H. }
  rewrite (split_whole _ _ Hname).
  assert (posix_root (bank ++ lit "_parser.py") = []) as ->.
  { destruct bank as [|a [|b [|c bank]]]; [done|..];
      cbn [contains startswith] in H; rewrite andb_true_r in H;
      apply orb_false_iff in H as [H _];
      cbn [app posix_root]; rewrite N.eqb_sym in H; by rewrite H. }
  rewrite filter_cons_True, filter_nil; [done|].
  split; [by destruct bank|].
  intros E. apply (f_equal length) in E. rewrite length_app in E. cbn in E. lia.
Qed.

(** Otherwise the name is normalised, and may leave the directory. *)
Example parser_file_examples :
  parser_file (lit "icici") = lit "custom_parser/icici_parser.py" /\
  parser_file (lit "./icici") = lit "custom_parser/icici_parser.py" /\
  parser_file (lit "a//b") = lit "custom_parser/a/b_parser.py" /\
  parser_file (lit "../x") = lit "custom_parser/../x_parser.py" /\
  parser_file (lit "/tmp/abs") = lit "/tmp/abs_parser.py".
Proof. repeat split; vm_compute; reflexivity. Qed.

End ParserFile.

Lemma prompts_pass p ans path code path' v evs :
  prompts (Generated p ans :: Persisted path code :: Validated path' v :: evs)
  = p :: prompts evs.
Proof. done. Qed.

Section MoreLoop.

Variable W : World.

Lemma attempts_linked n bank pdf_path csv_path expected_df previous_code error_msg attempt s :
  let s' := snd (attempts W n bank pdf_path csv_path expected_df
                   previous_code error_msg attempt s) in
  exists evs,
    trace s' = trace s ++ evs /\
    linked W bank (requests s) evs /\
    requests s' = (requests s + length (prompts evs))%nat.
Proof.
  revert previous_code error_msg attempt s.
  induction n as [|n IH]; intros previous_code error_msg attempt s; cbv zeta.
  { exists []. cbn. rewrite app_nil_r.
    split; [done|]. split; [constructor|lia]. }
  cbn [attempts]. unfold bind. cbv beta.
  pose proof (one_attempt_run W bank pdf_path csv_path expected_df
                previous_code error_msg attempt s) as H.
  destruct (one_attempt W bank pdf_path csv_path expected_df
              previous_code error_msg attempt s) as [r s']. cbn [fst snd] in H.
  destruct H as [(e & _ & -> & ->)|[(p & e & _ & Ha & -> & ->)|
    [(p & a & code & e & _ & Ha & _ & _ & -> & Hr & Ht)|
     (p & a & code & s1 & v & _ & Ha & Hcode & Hs1 & Hv & -> & ->)]]]; cbn [fst snd].
  - exists []. rewrite app_nil_r. cbn.
    split; [done|]. split; [constructor|lia].
  - exists [Generated p (inl e)]. cbn.
    split; [done|]. split; [by constructor|lia].
  - exists [Generated p (inr a)]. cbn.
    split; [done|]. split; [by constructor|lia].
  - destruct (test_parser_frame W (parser_file bank) pdf_path expected_df s1) as [Hr Ht].
    rewrite <- Hv in Ht.
    set (s2 := snd (test_parser W (parser_file bank) pdf_path expected_df s1)) in *.
    assert (Ht' : trace s2 = trace s ++ [Generated p (inr a); Persisted (parser_file bank) code;
                                         Validated (parser_file bank) v]).
    { rewrite Ht, Hs1. cbn [trace]. by rewrite <- !app_assoc. }
    assert (Hr' : requests s2 = S (requests s)) by (by rewrite Hr, Hs1).
    assert (Hlast : exists evs,
              trace s2 = trace s ++ evs /\ linked W bank (requests s) evs /\
              requests s2 = (requests s + length (prompts evs))%nat /\
              evs = [Generated p (inr a); Persisted (parser_file bank) code;
                     Validated (parser_file bank) v]).
    { eexists. split; [exact Ht'|]. split; [by repeat constructor|].
      split; [|done]. rewrite prompts_pass. cbn. lia. }
    destruct v as [[[] err]|x|]; cbn [fst snd];
      try (destruct Hlast as (evs & H1 & H2 & H3 & _); by exists evs).
    clear Hlast.
    destruct (IH (Some code) err (attempt + 1) s2) as (evs & Hevs & Hl & Hreq).
    exists (Generated p (inr a) :: Persisted (parser_file bank) code ::
            Validated (parser_file bank) (Ok (false, err)) :: evs).
    rewrite Hevs, Hreq, Ht', Hr', prompts_pass. cbn [length].
    split; [by rewrite <- !app_assoc|]. split; [|lia].
    constructor; [done..|]. by rewrite <- Hr'.
Qed.

(** X7: in a run of the loop every answer recorded is the model's answer
    to that request, requests being counted from the number made before;
    every code stored is the answer received just before with its fences
    removed; it is stored in the parser file of the bank, which is the
    file validated next; a failed request is the last event, and so is an
    answer that could not be stored; and the number of requests grows by
    the number of prompts sent. *)
Theorem agent_loop_links bank max_attempts s :
  let s' := snd (agent_loop W bank max_attempts s) in
  exists evs,
    trace s' = trace s ++ evs /\
    linked W bank (requests s) evs /\
    requests s' = (requests s + length (prompts evs))%nat.
Proof.
  assert (Hnone : exists evs : list event,
            trace s = trace s ++ evs /\ linked W bank (requests s) evs /\
            requests s = (requests s + length (prompts evs))%nat).
  { exists []. rewrite app_nil_r. cbn.
    split; [done|]. split; [constructor|lia]. }
  unfold agent_loop, exists_. run_monad.
  destruct (bool_decide (is_Some (fs s !! pdf_file bank))); cbn [negb fst snd]; [|done].
  destruct (bool_decide (is_Some (fs s !! csv_file bank))); cbn [negb fst snd]; [|done].
  destruct (read_csv W (fs s) (csv_file bank)) as [e|expected_df]; cbn [lift]; [done|].
  apply attempts_linked.
Qed.

(** X9: with a budget of zero or less the process ends with status 1 and
    nothing has happened: no request, no file written; and so it does, the
    document and the reference being there, when the reference cannot be
    read, the exception of [read_csv] leaving [agent_loop] uncaught. *)
Theorem main_without_attempt argv target max_attempts s :
  parse_args W argv = inr (target, max_attempts) ->
  (max_attempts <= 0 -> main W argv s = (Exit 1, s)) /\
  (forall e,
     is_Some (fs s !! pdf_file target) -> is_Some (fs s !! csv_file target) ->
     read_csv W (fs s) (csv_file target) = inl e ->
     agent_loop W target max_attempts s = (Raise (Exception e), s) /\
     main W argv s = (Exit 1, s)).
Proof.
  intros Hargs. split.
  - intros HN. unfold main. rewrite Hargs. unfold agent_loop, exists_. run_monad.
    destruct (bool_decide (is_Some (fs s !! pdf_file target))); cbn [negb]; [|done].
    destruct (bool_decide (is_Some (fs s !! csv_file target))); cbn [negb]; [|done].
    destruct (read_csv W (fs s) (csv_file target)); cbn [lift]; [done|].
    by rewrite Z2Nat.nonpos.
  - intros e Hpdf Hcsv He.
    assert (agent_loop W target max_attempts s = (Raise (Exception e), s)) as H.
    { unfold agent_loop, exists_. run_monad.
      rewrite !bool_decide_eq_true_2 by done. cbn [negb]. cbv beta iota.
      rewrite !bool_decide_eq_true_2 by done. cbn [negb]. cbv beta iota.
      by rewrite He. }
    split; [done|]. unfold main. by rewrite Hargs, H.
Qed.

(** A verdict [False] comes with a text that is not empty. *)
Lemma test_parser_rejects parser_path pdf_path expected_df s e :
  fst (test_parser W parser_path pdf_path expected_df s) = Ok (false, Some e) -> e <> [].
Proof.
  intros H.
  destruct (test_parser_verdict_cases W parser_path pdf_path expected_df s)
    as [H'|[(msg & Hm & H')|[[x H']|H']]]; rewrite H in H'; try done.
  by injection H' as ->.
Qed.

Lemma attempts_accept n bank pdf_path csv_path expected_df previous_code error_msg attempt s :
  let s' := snd (attempts W n bank pdf_path csv_path expected_df
                   previous_code error_msg attempt s) in
  fst (attempts W n bank pdf_path csv_path expected_df
         previous_code error_msg attempt s) = Ok true ->
  exists code s1 actual_df,
    trace s' = trace s1 ++ [Validated (parser_file bank) (Ok (true, None))] /\
    (exists before, trace s1 = before ++ [Persisted (parser_file bank) code]) /\
    requests s1 = requests s' /\
    fs s1 !! parser_file bank = Some code /\
    candidate_returns W s1 (parser_file bank) pdf_path (DF actual_df) /\
    same_labels (columns actual_df) (columns expected_df) = true /\
    shape actual_df = shape expected_df /\
    equals W expected_df actual_df = true.
Proof.
  revert previous_code error_msg attempt s.
  induction n as [|n IH]; intros previous_code error_msg attempt s; cbv zeta; [done|].
  cbn [attempts]. unfold bind. cbv beta.
  pose proof (one_attempt_run W bank pdf_path csv_path expected_df
                previous_code error_msg attempt s) as H.
  destruct (one_attempt W bank pdf_path csv_path expected_df
              previous_code error_msg attempt s) as [r s']. cbn [fst snd] in H.
  destruct H as [(e & _ & -> & ->)|[(p & e & _ & _ & -> & ->)|
    [(p & a & code & e & _ & _ & _ & _ & -> & _ & _)|
     (p & a & code & s1 & v & _ & _ & _ & Hs1 & Hv & -> & ->)]]]; cbn [fst snd];
    [done..|].
  destruct (test_parser_frame W (parser_file bank) pdf_path expected_df s1) as [Hr Ht].
  rewrite <- Hv in Ht.
  destruct (test_parser_verdict_cases W (parser_file bank) pdf_path expected_df s1)
    as [H|[(msg & _ & H)|[[x H]|H]]]; rewrite <- Hv in H; rewrite H in *; cbn [fst snd];
    [|apply IH|done..].
  intros _. symmetry in Hv. apply test_parser_accepts in Hv as (actual_df & Hc & He).
  exists code, s1, actual_df.
  split; [done|]. split; [|split; [done|split; [|done]]].
  - rewrite Hs1. cbn [trace]. eexists (_ ++ [_]). by rewrite <- app_assoc.
  - rewrite Hs1. cbn [fs]. apply lookup_insert_eq.
Qed.

(** X10: the loop returns [True] only when the reference was read and
    the last two things that happened are these: a code was stored in the
    parser file of the bank; and the validation of that file, in the
    state the storing left, in which the file holds that code, found that
    the import gives a module with a [parse] that returns for the
    document a table with the reference's column labels and shape that
    [equals] takes for the reference.  (Which module the import of the
    file gives is the interpreter's matter.) *)
Theorem agent_loop_success_stored bank max_attempts s :
  let s' := snd (agent_loop W bank max_attempts s) in
  fst (agent_loop W bank max_attempts s) = Ok true ->
  exists expected_df code s1 actual_df,
    read_csv W (fs s) (csv_file bank) = inr expected_df /\
    trace s' = trace s1 ++ [Validated (parser_file bank) (Ok (true, None))] /\
    (exists before, trace s1 = before ++ [Persisted (parser_file bank) code]) /\
    requests s1 = requests s' /\
    fs s1 !! parser_file bank = Some code /\
    candidate_returns W s1 (parser_file bank) (pdf_file bank) (DF actual_df) /\
    same_labels (columns actual_df) (columns expected_df) = true /\
    shape actual_df = shape expected_df /\
    equals W expected_df actual_df = true.
Proof.
  unfold agent_loop, exists_. run_monad.
  destruct (bool_decide (is_Some (fs s !! pdf_file bank))); cbn [negb fst snd]; [|done].
  destruct (bool_decide (is_Some (fs s !! csv_file bank))); cbn [negb fst snd]; [|done].
  destruct (read_csv W (fs s) (csv_file bank)) as [e|expected_df]; cbn [lift]; [done|].
  intros H. exists expected_df.
  destruct (attempts_accept _ _ _ _ _ _ _ _ _ H) as (code & s1 & actual_df & H').
  by exists code, s1, actual_df.
Qed.

Lemma fed_head previous_code error_msg p ans rest :
  fed previous_code error_msg (Generated p ans :: rest) ->
  quoted previous_code error_msg p.
Proof. by inversion 1. Qed.

Lemma fed_quotes previous_code error_msg evs :
  fed previous_code error_msg evs ->
  forall before path code path' e p ans after,
    evs = before ++ Persisted path code :: Validated path' (Ok (false, Some e))
                 :: Generated p ans :: after ->
    code <> [] -> e <> [] /\ occurs_in code p /\ occurs_in e p.
Proof.
  induction 1 as [| | ? ? p0 a0 path0 code0 path0' err0 rest Hq Hrest IH|];
    intros before path1 code1 path1' e1 p1 ans1 after E Hcode.
  - by destruct before.
  - destruct before as [|? [|? ?]]; simplify_eq/=.
  - destruct before as [|? [|? [|? before]]]; simplify_eq/=.
    + by eapply (fed_head _ _ _ _ _ Hrest).
    + by eapply IH.
  - destruct before as [|? [|? [|? [|? ?]]]]; simplify_eq/=.
Qed.

Lemma attempts_fed n bank pdf_path csv_path expected_df previous_code error_msg attempt s :
  (forall e, error_msg = Some e -> e <> []) ->
  exists evs,
    trace (snd (attempts W n bank pdf_path csv_path expected_df
                  previous_code error_msg attempt s)) = trace s ++ evs /\
    fed previous_code error_msg evs.
Proof.
  revert previous_code error_msg attempt s.
  induction n as [|n IH]; intros previous_code error_msg attempt s Herr.
  { exists []. cbn. rewrite app_nil_r. split; [done|constructor]. }
  cbn [attempts]. unfold bind. cbv beta.
  pose proof (one_attempt_run W bank pdf_path csv_path expected_df
                previous_code error_msg attempt s) as H.
  destruct (one_attempt W bank pdf_path csv_path expected_df
              previous_code error_msg attempt s) as [r s']. cbn [fst snd] in H.
  assert (Hq : forall p,
            build_prompt W pdf_path csv_path previous_code error_msg attempt s = (Ok p, s) ->
            quoted previous_code error_msg p).
  { intros p Hp code e -> -> Hcode. split; [by apply Herr|].
    eapply build_prompt_feedback; [done|by apply Herr|by rewrite Hp]. }
  destruct H as [(e & _ & -> & ->)|[(p & e & Hp & _ & -> & ->)|
    [(p & a & code & e & Hp & _ & _ & _ & -> & _ & Ht)|
     (p & a & code & s1 & v & Hp & _ & _ & Hs1 & Hv & -> & ->)]]]; cbn [fst snd].
  - exists []. rewrite app_nil_r. split; [done|constructor].
  - eexists. split; [reflexivity|]. constructor. by apply Hq.
  - eexists. split; [exact Ht|]. constructor. by apply Hq.
  - destruct (test_parser_frame W (parser_file bank) pdf_path expected_df s1) as [_ Ht].
    rewrite <- Hv in Ht.
    set (s2 := snd (test_parser W (parser_file bank) pdf_path expected_df s1)) in *.
    assert (Ht' : trace s2 = trace s ++ [Generated p (inr a); Persisted (parser_file bank) code;
                                         Validated (parser_file bank) v]).
    { rewrite Ht, Hs1. cbn [trace]. by rewrite <- !app_assoc. }
    destruct v as [[[] err]|x|]; cbn [fst snd];
      try (eexists; split; [exact Ht'|]; apply fed_last; by apply Hq).
    destruct (IH (Some code) err (attempt + 1) s2) as (evs & Hevs & Hf).
    { intros e ->. symmetry in Hv. by apply test_parser_rejects in Hv. }
    exists (Generated p (inr a) :: Persisted (parser_file bank) code ::
            Validated (parser_file bank) (Ok (false, err)) :: evs).
    rewrite Hevs, Ht'.
    split; [by rewrite <- !app_assoc|]. constructor; [by apply Hq|done].
Qed.

(** X11: in a run of the loop, the prompt sent after a candidate with
    non-empty code was rejected contains that code and the error text of
    the rejection, which is not empty. *)
Theorem agent_loop_feeds_back bank max_attempts s :
  let s' := snd (agent_loop W bank max_attempts s) in
  exists evs,
    trace s' = trace s ++ evs /\
    forall before path code path' e p ans after,
      evs = before ++ Persisted path code :: Validated path' (Ok (false, Some e))
                   :: Generated p ans :: after ->
      code <> [] -> e <> [] /\ occurs_in code p /\ occurs_in e p.
Proof.
  assert (Hnone : exists evs : list event,
            trace s = trace s ++ evs /\
            forall before path code path' e p ans after,
              evs = before ++ Persisted path code :: Validated path' (Ok (false, Some e))
                           :: Generated p ans :: after ->
              code <> [] -> e <> [] /\ occurs_in code p /\ occurs_in e p).
  { exists []. rewrite app_nil_r. split; [done|]. intros before. by destruct before. }
  unfold agent_loop, exists_. run_monad.
  destruct (bool_decide (is_Some (fs s !! pdf_file bank))); cbn [negb fst snd]; [|done].
  destruct (bool_decide (is_Some (fs s !! csv_file bank))); cbn [negb fst snd]; [|done].
  destruct (read_csv W (fs s) (csv_file bank)) as [e|expected_df]; cbn [lift]; [done|].
  destruct (attempts_fed (Z.to_nat max_attempts) bank (pdf_file bank) (csv_file bank)
              expected_df None None 1 s) as (evs & Ht & Hf); [done|].
  exists evs. split; [done|]. by apply (fed_quotes _ _ _ Hf).
Qed.

End MoreLoop.

Lemma agent_loop_feeds_back_witness :
  exists p1 a1 code e p2 a2 after,
    trace (snd (agent_loop (Demo.world [Demo.src_none; Demo.src_good]) Demo.bank 3
                  Demo.start))
    = Generated p1 a1 :: Persisted Demo.parser_path code
        :: Validated Demo.parser_path (Ok (false, Some e)) :: Generated p2 a2 :: after /\
    code <> [] /\ e <> [] /\ occurs_in code p2 /\ occurs_in e p2.
Proof.
  pose proof (agent_loop_feeds_back (Demo.world [Demo.src_none; Demo.src_good])
                Demo.bank 3 Demo.start) as H0.
  cbv zeta in H0. destruct H0 as (evs & Ht & H).
  assert (E : exists p1 a1 code e p2 a2 after,
            trace (snd (agent_loop (Demo.world [Demo.src_none; Demo.src_good])
                          Demo.bank 3 Demo.start))
            = Generated p1 a1 :: Persisted Demo.parser_path code
                :: Validated Demo.parser_path (Ok (false, Some e))
                :: Generated p2 a2 :: after /\ code <> []).
  { vm_compute. do 7 eexists. split; [reflexivity|discriminate]. }
  destruct E as (p1 & a1 & code & e & p2 & a2 & after & E & Hcode).
  exists p1, a1, code, e, p2, a2, after. split; [exact E|]. split; [exact Hcode|].
  apply (H [Generated p1 a1] Demo.parser_path code Demo.parser_path e p2 a2 after);
    [|exact Hcode].
  rewrite E in Ht. exact (eq_sym Ht).
Defined.

Lemma agent_loop_success_stored_witness :
  exists s1 actual_df,
    candidate_returns (Demo.world [Demo.src_none; Demo.src_good]) s1
      Demo.parser_path Demo.pdf_path (DF actual_df) /\
    equals (Demo.world [Demo.src_none; Demo.src_good]) Demo.reference actual_df = true.
Proof.
  destruct (agent_loop_success_stored (Demo.world [Demo.src_none; Demo.src_good])
              Demo.bank 3 Demo.start)
    as (expected_df & code & s1 & actual_df & Hread & _ & _ & _ & _ & Hc & _ & _ & He).
  - vm_compute. reflexivity.
  - vm_compute in Hread. injection Hread as <-. by exists s1, actual_df.
Defined.

Lemma main_without_attempt_witness :
  main (Demo.world [Demo.src_good]) (Demo.args Demo.bank 0) Demo.start = (Exit 1, Demo.start).
Proof.
  refine (proj1 (main_without_attempt (Demo.world [Demo.src_good])
                   (Demo.args Demo.bank 0) Demo.bank 0 Demo.start _) _).
  - vm_compute. reflexivity.
  - lia.
Defined.
(** ** The repository's test and the harness *)

Section MoreTests.

Variable W : World.
Variable str_label repr_label : scalar -> pystr.

Lemma filter_by_value (l : list (scalar * Series)) v :
  filter (fun p : scalar * dtype => fst p = v)
    ((fun lc : scalar * Series => (value (fst lc), s_dtype (snd lc))) <$> l)
  = (fun lc : scalar * Series => (value (fst lc), s_dtype (snd lc)))
      <$> filter (fun lc : scalar * Series => value (fst lc) = v) l.
Proof.
  induction l as [|x l IH]; [done|]. cbn [fmap list_fmap].
  destruct (decide (value (fst x) = v)) as [HP|HP].
  - rewrite !filter_cons_True by done. cbn [fmap list_fmap]. by rewrite <- IH.
  - by rewrite !filter_cons_False by done.
Qed.

Lemma filter_key_absent {A} (l : list (scalar * A)) k :
  k ∉ l.*1 -> filter (fun p => fst p = k) l = [].
Proof.
  induction l as [|[a c] l IH]; cbn [fmap list_fmap fst]; [done|].
  intros [Ha Hl]%not_elem_of_cons.
  rewrite filter_cons_False by (cbn; congruence). by apply IH.
Qed.

Lemma filter_key_unique {A} (l : list (scalar * A)) k :
  NoDup (l.*1) -> k ∈ l.*1 ->
  exists c, filter (fun p => fst p = k) l = [(k, c)].
Proof.
  induction l as [|[a c] l IH]; cbn [fmap list_fmap fst]; [by intros _ ?%elem_of_nil|].
  intros [Ha Hl]%NoDup_cons Hin.
  destruct (decide (a = k)) as [->|Hne].
  - exists c. rewrite filter_cons_True by done. f_equal.
    by apply filter_key_absent.
  - apply elem_of_cons in Hin as [?|Hin]; [congruence|].
    destruct (IH Hl Hin) as [c' Hc']. exists c'.
    by rewrite filter_cons_False.
Qed.

(** The dtype of a column as the dtypes by value give it. *)
Lemma column_dtype_by_value df col :
  column_dtype W repr_label df col =
  match filter (fun p => fst p = value col) (dtypes_by_value df) with
  | [] => Raise (Exception (MkExc (lit "KeyError") (repr_label col)
                              (traceback W (lit "KeyError") (repr_label col))))
  | [p] => Ok (snd p)
  | _ :: _ :: _ =>
      Raise (Exception (raise_here W "AttributeError"
                          "'DataFrame' object has no attribute 'dtype'"))
  end.
Proof.
  unfold column_dtype, dtypes_by_value.
  rewrite filter_by_value.
  by destruct (filter _ (zip (columns df) (data df))) as [|x [|y r]].
Qed.

Lemma dtypes_by_value_keys df :
  length (data df) = length (columns df) ->
  (dtypes_by_value df).*1 = map value (columns df).
Proof.
  intros Hl. unfold dtypes_by_value. rewrite <- list_fmap_compose.
  rewrite <- (fst_zip (columns df) (data df)) at 2 by lia.
  by rewrite <- list_fmap_compose.
Qed.

(** Tables that are equal have the same dtypes by value. *)
Lemma equal_dtypes (a b : DataFrame) :
  equal_by_value a b = true -> dtypes_by_value a = dtypes_by_value b.
Proof.
  unfold equal_by_value. intros H%bool_decide_eq_true_1. injection H as _ Hc Hd.
  apply (f_equal (map s_dtype)) in Hd. rewrite !map_map in Hd. cbn [s_dtype] in Hd.
  unfold dtypes_by_value.
  assert (forall (cols : list scalar) (cs : list Series),
            (fun lc : scalar * Series => (value (fst lc), s_dtype (snd lc))) <$> zip cols cs
            = zip (map value cols) (map s_dtype cs)) as Hzip.
  { induction cols as [|c cols IH]; intros [|x cs]; cbn; [done..|]. by rewrite IH. }
  rewrite !Hzip, Hc. f_equal. exact Hd.
Qed.

Lemma column_dtype_found df col :
  well_formed df -> NoDup (map value (columns df)) -> col ∈ columns df ->
  exists d, column_dtype W repr_label df col = Ok d.
Proof.
  intros [Hlen _] Hnd Hin. rewrite column_dtype_by_value.
  destruct (filter_key_unique (dtypes_by_value df) (value col)) as [c ->].
  - by rewrite dtypes_by_value_keys.
  - rewrite dtypes_by_value_keys by done. by apply list_elem_of_fmap_2.
  - by eexists.
Qed.

Lemma check_dtypes_equal expected_df actual_df cols s :
  equal_by_value expected_df actual_df = true ->
  well_formed expected_df -> NoDup (map value (columns expected_df)) ->
  cols ⊆ columns expected_df ->
  check_dtypes W str_label repr_label expected_df actual_df cols s = (Ok tt, s).
Proof.
  intros He Hwf Hnd. induction cols as [|col cols IH]; intros Hsub; [done|].
  cbn [check_dtypes]. run_monad.
  destruct (column_dtype_found expected_df col Hwf Hnd) as [d Hd]; [set_solver|].
  assert (column_dtype W repr_label actual_df col = Ok d) as ->.
  { rewrite column_dtype_by_value, <- (equal_dtypes _ _ He).
    by rewrite <- column_dtype_by_value. }
  rewrite Hd. unfold assert_. rewrite bool_decide_eq_true_2 by done. run_monad.
  apply IH. set_solver.
Qed.

Lemma column_dtype_cases df col :
  (exists d, column_dtype W repr_label df col = Ok d) \/
  (exists e, column_dtype W repr_label df col = Raise (Exception e)).
Proof.
  unfold column_dtype.
  destruct (filter _ (zip (columns df) (data df))) as [|x [|y r]]; eauto.
Qed.

Lemma check_dtypes_cases expected_df actual_df cols s :
  check_dtypes W str_label repr_label expected_df actual_df cols s = (Ok tt, s) \/
  exists e, check_dtypes W str_label repr_label expected_df actual_df cols s
            = (Raise (Exception e), s).
Proof.
  induction cols as [|col cols IH]; [by left|].
  cbn [check_dtypes]. run_monad.
  destruct (column_dtype_cases actual_df col) as [[d1 ->]|[e ->]]; [|right; by eexists].
  destruct (column_dtype_cases expected_df col) as [[d2 ->]|[e ->]]; [|right; by eexists].
  unfold assert_. destruct (bool_decide (d1 = d2)); run_monad; [done|].
  right. by eexists.
Qed.

Lemma icici_paths :
  parser_file (lit "icici") = lit "custom_parser/icici_parser.py" /\
  pdf_file (lit "icici") = lit "data/icici/icici_sample.pdf" /\
  csv_file (lit "icici") = lit "data/icici/icici_sample.csv".
Proof. by vm_compute. Qed.

(** X12: when the stored parser, the document and the reference of the
    target icici are there and the reference is read as a well-formed
    table whose column labels are strings, no two the same, as
    [read_csv] gives them, a parser that [test_icici_parser] passes is
    accepted by [test_parser] in the same state; and where [equals]
    decides by value on the table the parser returns,
    [test_icici_parser] passes exactly when [test_parser] accepts the
    stored parser, and both exactly when the parser returns a table that
    is equal to the reference by value. *)
Theorem test_icici_parser_agrees s expected_df :
  is_Some (fs s !! parser_file (lit "icici")) ->
  is_Some (fs s !! pdf_file (lit "icici")) ->
  is_Some (fs s !! csv_file (lit "icici")) ->
  read_csv W (fs s) (csv_file (lit "icici")) = inr expected_df ->
  well_formed expected_df ->
  Forall is_str (columns expected_df) -> NoDup (columns expected_df) ->
  (fst (test_icici_parser W str_label repr_label s) = Ok tt ->
   fst (test_parser W (parser_file (lit "icici")) (pdf_file (lit "icici"))
          expected_df s) = Ok (true, None)) /\
  ((forall actual_df,
      candidate_returns W s (parser_file (lit "icici")) (pdf_file (lit "icici"))
        (DF actual_df) ->
      decided_by_value W expected_df actual_df) ->
   (fst (test_icici_parser W str_label repr_label s) = Ok tt <->
    fst (test_parser W (parser_file (lit "icici")) (pdf_file (lit "icici"))
           expected_df s) = Ok (true, None)) /\
   (fst (test_icici_parser W str_label repr_label s) = Ok tt <->
    exists actual_df,
      candidate_returns W s (parser_file (lit "icici")) (pdf_file (lit "icici"))
        (DF actual_df) /\
      equal_by_value expected_df actual_df = true)).
Proof.
  intros Hparser Hpdf Hcsv Hread Hwf Hstr Hnd'.
  assert (Hnd : NoDup (map value (columns expected_df))).
  { assert (map value (columns expected_df) = columns expected_df) as ->; [|done].
    clear -Hstr. induction Hstr as [|x l [t ->] _ IH]; [done|]. cbn. by rewrite IH. }
  rewrite test_parser_accepts.
  setoid_rewrite run_parse_returns.
  destruct icici_paths as (Ep & Ed & Ec). rewrite Ep, Ed, Ec in *.
  unfold test_icici_parser, exists_, assert_. run_monad.
  rewrite !bool_decide_eq_true_2 by done. cbv beta iota.
  rewrite Hread. cbn [lift].
  destruct (run_parse W (lit "custom_parser/icici_parser.py")
              (lit "data/icici/icici_sample.pdf") s) as [[v|x|] s1]; cbn [fst snd].
  2,3: split; [done|]; intros _; split; (split; [done|]); by intros (? & ? & _).
  destruct v as [actual_df|t].
  2:{ split; [done|]. intros _. split; (split; [done|]); by intros (? & ? & _). }
  split.
  - intros Hpass. exists actual_df. split; [done|]. revert Hpass.
    destruct (same_labels (columns actual_df) (columns expected_df)); [|done].
    destruct (bool_decide (shape actual_df = shape expected_df)) eqn:Hs; [|done].
    apply bool_decide_eq_true_1 in Hs.
    destruct (check_dtypes_cases expected_df actual_df (columns expected_df) s1)
      as [Hc|[e Hc]]; rewrite Hc; [|done].
    cbn [fst snd]. by destruct (equals W expected_df actual_df).
  - intros Hv. specialize (Hv actual_df eq_refl). unfold decided_by_value in Hv.
    rewrite Hv.
    destruct (equal_by_value expected_df actual_df) eqn:He.
    + rewrite (equal_by_value_columns _ _ He).
      rewrite (bool_decide_eq_true_2 _ (equal_by_value_shape _ _ He)).
      rewrite check_dtypes_equal by done. cbn [fst snd].
      split; (split; [intros _; exists actual_df|done]); [|done].
      split; [done|]. split; [by apply equal_by_value_columns|].
      split; [by apply equal_by_value_shape|]. by rewrite Hv.
    + split; (split; [intros Hpass; exfalso; revert Hpass|]).
      * destruct (same_labels (columns actual_df) (columns expected_df)); [|done].
        destruct (bool_decide (shape actual_df = shape expected_df)); [|done].
        destruct (check_dtypes_cases expected_df actual_df (columns expected_df) s1)
          as [Hc|[e Hc]]; by rewrite Hc.
      * intros (a & [= <-] & _ & _ & H). congruence.
      * destruct (same_labels (columns actual_df) (columns expected_df)); [|done].
        destruct (bool_decide (shape actual_df = shape expected_df)); [|done].
        destruct (check_dtypes_cases expected_df actual_df (columns expected_df) s1)
          as [Hc|[e Hc]]; by rewrite Hc.
      * intros (a & [= <-] & H). congruence.
Qed.

End MoreTests.

Lemma test_icici_parser_agrees_witness :
  fst (test_icici_parser (Demo.world []) Demo.show Demo.show
         (Demo.with_parser Demo.src_float_labelled)) = Ok tt.
Proof.
  refine (proj2 (proj1 (proj2 (test_icici_parser_agrees (Demo.world []) Demo.show
                                 Demo.show (Demo.with_parser Demo.src_float_labelled)
                                 Demo.reference _ _ _ _ _ _ _) _)) _).
  - eexists. vm_compute. reflexivity.
  - eexists. vm_compute. reflexivity.
  - eexists. vm_compute. reflexivity.
  - vm_compute. reflexivity.
  - split; [reflexivity|]. by repeat constructor.
  - repeat constructor. by eexists.
  - apply NoDup_singleton.
  - reflexivity.
  - vm_compute. reflexivity.
Defined.

(** ** The rows gathered by the hand-written parser *)

Section MoreHandWritten.

Variable extract_table : page -> exc + option (list (list (option pystr))).

Lemma gather_all pages tables all_data :
  Forall2 (fun p t => extract_table p = inr t) pages tables ->
  gather extract_table pages all_data
  = Ok (all_data ++ concat (map rows_after_header tables)).
Proof.
  intros H. revert all_data.
  induction H as [|p t pages tables Hp _ IH]; intros all_data; cbn [gather map concat].
  - by rewrite app_nil_r.
  - rewrite Hp, IH. by rewrite <- app_assoc.
Qed.

(** X13: when every page yields its table, the rows gathered are, page
    after page, the rows of each table but its first: as many as all the
    tables have rows, less one for every table that has any; and a header
    that is the first row of every table and no other row of any is not
    among them.  When a page fails, the pages before it having yielded
    their tables, its exception is raised. *)
Theorem gather_skips_headers pages tables :
  Forall2 (fun p t => extract_table p = inr t) pages tables ->
  exists rows,
    gather extract_table pages [] = Ok rows /\
    rows = concat (map rows_after_header tables) /\
    length rows
    = sum_list (map (fun t => Nat.pred (length (default [] t))) tables) /\
    (forall header,
       Forall (fun t => exists body, t = Some (header :: body) /\ header ∉ body) tables ->
       header ∉ rows) /\
    (forall page e after,
       extract_table page = inl e ->
       gather extract_table (pages ++ page :: after) [] = Raise (Exception e)).
Proof.
  intros H. eexists. split; [by apply gather_all|]. cbn [app].
  split; [done|]. split; [|split].
  - clear H. induction tables as [|t tables IH]; [done|].
    cbn [map concat sum_list_with sum_list]. rewrite length_app, IH.
    f_equal. by destruct t as [[|? ?]|].
  - intros header Hall. clear H.
    induction Hall as [|t tables (body & -> & Hb) _ IH]; cbn [map concat].
    + apply not_elem_of_nil.
    + cbn [rows_after_header]. by intros [?|?]%elem_of_app.
  - intros page e after He. generalize (@nil (list (option pystr))).
    induction H as [|p t pages tables Hp _ IH]; intros all_data; cbn [app gather].
    + by rewrite He.
    + rewrite Hp. apply IH.
Qed.

End MoreHandWritten.

Lemma gather_skips_headers_witness :
  gather first_table two_pages [] =
  Ok [[Some (lit "01-08-2024"); Some (lit "10")];
      [Some (lit "02-08-2024"); Some (lit "20")];
      [Some (lit "03-08-2024"); None]].
Proof.
  destruct (gather_skips_headers first_table two_pages
              (map (fun p => match first_table p with inr t => t | inl _ => None end)
                 two_pages))
    as (rows & H & -> & _).
  - repeat constructor.
  - exact H.
Defined.
